(** * Config: substitution engine and configuration store

    A shallow embedding of the [Config] class of [nodejs-config] (the richer
    class with [@]-functions, and the earlier class with [$] placeholders
    only), with the properties stated in its specification.

    Strings are [string]s of 8-bit code units.  The regular expressions of the
    class are embedded as the scanners below, one per expression; each scanner
    carries the expression it embeds. *)

From Stdlib Require Import ZArith Lia Ascii.
From stdpp Require Import base strings list pretty.

Local Open Scope string_scope.

(** ** Characters and text *)

Module Text.

Definition dquote : ascii := Ascii.ascii_of_nat 34%nat.
Definition squote : ascii := Ascii.ascii_of_nat 39%nat.

(** A string literal in double quotes, as [JSON] would write it. *)
Definition quoted (s : string) : string := String dquote (s +:+ String dquote "").

Definition chr_eqb (a b : ascii) : bool := Ascii.eqb a b.

(** The characters the dot of a regular expression does not match. *)
Definition is_line_terminator (c : ascii) : bool :=
  chr_eqb c (Ascii.ascii_of_nat 10%nat) || chr_eqb c (Ascii.ascii_of_nat 13%nat).

(** White space of [String.prototype.trim], on 8-bit code units. *)
Definition is_white_space (c : ascii) : bool :=
  let n := Ascii.nat_of_ascii c in
  ((9 <=? n) && (n <=? 13) || (n =? 32) || (n =? 160))%nat.

Definition is_quote (c : ascii) : bool := chr_eqb c squote || chr_eqb c dquote.

Fixpoint trim_start (s : string) : string :=
  match s with
  | String c r => if is_white_space c then trim_start r else s
  | EmptyString => EmptyString
  end.

(** [trim_end] keeps a character when it is not white space or when something
    that is kept follows it. *)
Fixpoint trim_end (s : string) : string :=
  match s with
  | String c r =>
      match trim_end r with
      | EmptyString => if is_white_space c then EmptyString else String c EmptyString
      | r' => String c r'
      end
  | EmptyString => EmptyString
  end.

(** [t.trim()] *)
Definition trim (s : string) : string := trim_end (trim_start s).

(** [s.split(sep)] for a one character separator: never empty. *)
Fixpoint split (sep : ascii) (s : string) : list string :=
  match s with
  | EmptyString => [EmptyString]
  | String c r =>
      if chr_eqb sep c then EmptyString :: split sep r
      else match split sep r with
           | w :: ws => String c w :: ws
           | [] => [String c EmptyString]
           end
  end.

(** [parts.join(sep)] *)
Fixpoint join (sep : string) (parts : list string) : string :=
  match parts with
  | [] => EmptyString
  | [w] => w
  | w :: ws => w +:+ sep +:+ join sep ws
  end.

Fixpoint contains_char (p : ascii -> bool) (s : string) : bool :=
  match s with
  | EmptyString => false
  | String c r => p c || contains_char p r
  end.

(** The character [x] occurs in [s]. *)
Definition occurs (x : ascii) (s : string) : bool := contains_char (chr_eqb x) s.

(** [s.replace(/:/g, '.')] *)
Fixpoint colons_to_dots (s : string) : string :=
  match s with
  | EmptyString => EmptyString
  | String c r => String (if chr_eqb c ":" then "."%char else c) (colons_to_dots r)
  end.

(** The text before the first character satisfying [p], and the text after it. *)
Fixpoint break_first (p : ascii -> bool) (s : string) : option (string * string) :=
  match s with
  | EmptyString => None
  | String c r =>
      if p c then Some (EmptyString, r)
      else match break_first p r with
           | Some (a, b) => Some (String c a, b)
           | None => None
           end
  end.

(** The text before the last character satisfying [p], and the text after it. *)
Fixpoint break_last (p : ascii -> bool) (s : string) : option (string * string) :=
  match s with
  | EmptyString => None
  | String c r =>
      match break_last p r with
      | Some (a, b) => Some (String c a, b)
      | None => if p c then Some (EmptyString, r) else None
      end
  end.

(** The string without its last character, and that character. *)
Fixpoint unsnoc (s : string) : option (string * ascii) :=
  match s with
  | EmptyString => None
  | String c r =>
      match unsnoc r with
      | Some (body, z) => Some (String c body, z)
      | None => Some (EmptyString, c)
      end
  end.

(** [$value.replace(/^[Q](.* )[Q]$/, '$1')], where the class [Q] holds the
    single and the double quote character: the expression matches a string
    that opens with a quote character, closes with a quote character (a
    second character of the string), and has no line terminator in between;
    the replacement is the text in between. *)
Definition strip_quotes (s : string) : string :=
  match s with
  | String q1 r =>
      match unsnoc r with
      | Some (body, q2) =>
          if is_quote q1 && is_quote q2 && negb (contains_char is_line_terminator body)
          then body else s
      | None => s
      end
  | EmptyString => s
  end.

End Text.

(** ** Properties of an object, in enumeration order *)

Module Props.

(** Own property lookup. *)
Fixpoint prop {A} (props : list (string * A)) (key : string) : option A :=
  match props with
  | [] => None
  | (k, v) :: rest => if String.eqb k key then Some v else prop rest key
  end.

(** [key in object], own properties. *)
Definition has_prop {A} (props : list (string * A)) (key : string) : bool :=
  match prop props key with Some _ => true | None => false end.

(** [object[key] = v]: in place when the property exists, a new last property
    otherwise. *)
Fixpoint assign {A} (props : list (string * A)) (key : string) (v : A)
    : list (string * A) :=
  match props with
  | [] => [(key, v)]
  | (k, w) :: rest =>
      if String.eqb k key then (k, v) :: rest else (k, w) :: assign rest key v
  end.

End Props.

(** ** Values and the store, as the substitution engine uses them

    The engine handles values through a few primitive operations only:
    [typeof v === 'string'], [String(v)], the literals [undefined], [null],
    [true], [false], and lodash's [get(object, path, defaultValue)].  Two
    representations of values instantiate this interface below: nested trees
    ([Tree]) and references into a heap of objects ([Refs]). *)

Class JsValue (V : Type) : Type := {
  js_undefined : V;
  js_null : V;
  js_boolean : bool -> V;
  js_string : string -> V;
  (** [Some s] when [typeof v === 'string'] *)
  js_typeof_string : V -> option string;
  (** [String(v)], as [String.prototype.replace] applies it to what its
      callback returns *)
  js_ToString : V -> string;
  (** lodash [get(object, path, defaultValue)] *)
  js_get : V -> string -> V -> V
}.

(** What [this] offers to [#substitute]. *)
Record Store (V : Type) : Type := {
  (** [this.#dictionary[name]] *)
  dictionary_at : string -> V;
  (** [this.get(key, defaultValue)] *)
  store_get : string -> V -> V;
  (** [this.#functions[name]] *)
  function_at : string -> option (list V -> V)
}.
Arguments dictionary_at {V}.
Arguments store_get {V}.
Arguments function_at {V}.

(** The property name a namespace selects: [object[undefined]] reads the
    property named [undefined]. *)
Definition property_name (namespace : option string) : string :=
  match namespace with
  | Some n => n
  | None => "undefined"
  end.

(** ** The placeholder scanner

    [/[$@]\{(?!.*?[$@])( .*?)}/g] in the richer class and
    [/\${(?!.*?\$)( .*?)}/g] in the earlier one: a sigil, an opening brace, no
    sigil in the rest of the line (the negative look-ahead), and the shortest
    run of characters of the line up to a closing brace. *)

Module Scanner.
Import Text.

Inductive piece : Type :=
| Lit (c : ascii)                     (* a character outside every match *)
| Span (id : ascii) (val : string).   (* a match [el = id{val}] *)

Section WithSigil.
Variable is_sigil : ascii -> bool.

(** [.*?[$@]] matches at the start of [s]. *)
Fixpoint line_has_sigil (s : string) : bool :=
  match s with
  | EmptyString => false
  | String c r =>
      if is_line_terminator c then false
      else if is_sigil c then true
      else line_has_sigil r
  end.

(** [( .*?)}] at the start of [s]: the captured text. *)
Fixpoint until_brace (s : string) : option string :=
  match s with
  | EmptyString => None
  | String c r =>
      if chr_eqb c "}" then Some EmptyString
      else if is_line_terminator c then None
      else match until_brace r with
           | Some v => Some (String c v)
           | None => None
           end
  end.

(** The expression matches at the start of [s]: sigil and captured text. *)
Definition match_at (s : string) : option (ascii * string) :=
  match s with
  | String c (String b r) =>
      if is_sigil c && chr_eqb b "{" && negb (line_has_sigil r)
      then match until_brace r with
           | Some val => Some (c, val)
           | None => None
           end
      else None
  | _ => None
  end.

(** The matches of the global expression in [s], left to right, with the
    text between them; [skip] characters of [s] belong to a match already
    found. *)
Fixpoint scan (skip : nat) (s : string) : list piece :=
  match s with
  | EmptyString => []
  | String c r =>
      match skip with
      | S k => scan k r
      | O =>
          match match_at s with
          | Some (id, val) => Span id val :: scan (String.length val + 2) r
          | None => Lit c :: scan 0 r
          end
      end
  end.
End WithSigil.

(** The pieces of a text without a match. *)
Fixpoint lits (s : string) : list piece :=
  match s with
  | EmptyString => []
  | String c r => Lit c :: lits r
  end.

Definition is_span (p : piece) : bool :=
  match p with Span _ _ => true | Lit _ => false end.

(** [template.match(regex)] is not [null]. *)
Definition has_match (ps : list piece) : bool := existsb is_span ps.

(** The text of a match. *)
Definition el (id : ascii) (val : string) : string :=
  String id (String "{" (val +:+ "}")).

(** The text a list of pieces was cut from. *)
Fixpoint source (ps : list piece) : string :=
  match ps with
  | [] => EmptyString
  | Lit c :: ps' => String c (source ps')
  | Span id val :: ps' => el id val +:+ source ps'
  end.

End Scanner.

(** ** The richer class: [#substitute] *)

Module Rich.
Import Text Scanner.

Definition cap : nat := 10.

Definition is_sigil (c : ascii) : bool := chr_eqb c "$" || chr_eqb c "@".

(** [#substitutionRegex] *)
Definition substitutionRegex (s : string) : list piece := scan is_sigil 0 s.

(** [val.match(/^( .*?):( .* )$/) || []], destructured with [tuple = '']: the
    text before the first colon and the text after it.  [val] is a run of
    characters of one line, so the dots match all of it. *)
Definition namespace_tuple (val : string) : option string * string :=
  match break_first (chr_eqb ":") val with
  | Some (namespace, tuple) => (Some namespace, tuple)
  | None => (None, EmptyString)
  end.

(** [tuple.split(',').map(t => t.trim())] *)
Definition tokens (tuple : string) : list string := map trim (split "," tuple).

Section Engine.
Context {V : Type} `{JsValue V}.
Variable this : Store V.

(** The variables the replace callback closes over. *)
Record closure : Type := {
  defaultValue : V;
  substitutedValue : V;
  isFinalSubstitution : bool
}.

(** [args.find(fb => fb !== undefined && fb !== 'undefined')]; the tokens
    are strings, never [undefined]. *)
Definition fallbackValue (args : list string) : option string :=
  List.find (fun fb => negb (String.eqb fb "undefined")) args.

(** The callback of [template.replace], on the match [id{val}]; it returns
    [substitutedValue]. *)
Definition callback (template : string) (id : ascii) (val : string)
    (vars : closure) : closure :=
  let '(namespace, tuple) := namespace_tuple val in
  let key := hd EmptyString (tokens tuple) in
  let args := tl (tokens tuple) in
  let final := String.eqb template (el id val) in
  if chr_eqb id "@" then
    let key' := store_get this key (js_string key) in
    let args' := map (fun k => store_get this k (js_string k)) args in
    {| defaultValue := defaultValue vars;
       substitutedValue :=
         match function_at this (property_name namespace) with
         | Some f => f (key' :: args')
         | None => js_undefined
         end;
       isFinalSubstitution := final |}
  else
    let defaultValue' :=
      match fallbackValue args with
      | Some fb => js_string fb
      | None => defaultValue vars
      end in
    {| defaultValue := defaultValue';
       substitutedValue :=
         js_get (dictionary_at this (property_name namespace)) key defaultValue';
       isFinalSubstitution := final |}.

(** [template.replace(regex, callback)]: the new text and the variables
    after the last call. *)
Fixpoint replace (template : string) (ps : list piece) (vars : closure)
    : string * closure :=
  match ps with
  | [] => (EmptyString, vars)
  | Lit c :: ps' =>
      let '(out, vars') := replace template ps' vars in (String c out, vars')
  | Span id val :: ps' =>
      let vars1 := callback template id val vars in
      let '(out, vars') := replace template ps' vars1 in
      (js_ToString (substitutedValue vars1) +:+ out, vars')
  end.

Definition not_a_string (v : V) : bool :=
  match js_typeof_string v with Some _ => false | None => true end.

(** [#substitute(template, defaultValue, depth)].  The recursion is the
    source's; [fuel] bounds it for the definition, and [None] means that
    the fuel ran out. *)
Fixpoint substitute_fuel (fuel : nat) (template : V) (default : V) (depth : nat)
    : option V :=
  match fuel with
  | O => None
  | S fuel' =>
      match js_typeof_string template with
      | None => Some template
      | Some text =>
          let depth := S depth in
          if (cap <? depth)%nat then Some template
          else if negb (has_match (substitutionRegex text)) then Some template
          else
            let '(text', vars) :=
              replace text (substitutionRegex text)
                {| defaultValue := default;
                   substitutedValue := js_undefined;
                   isFinalSubstitution := false |} in
            match substitute_fuel fuel' (js_string text') (defaultValue vars) depth with
            | None => None
            | Some transformedValue =>
                Some (if isFinalSubstitution vars && not_a_string (substitutedValue vars)
                      then substitutedValue vars else transformedValue)
            end
      end
  end.

(** [this.#substitute(value)], as [resolve] calls it. *)
Definition substitute (template : V) : V :=
  default template (substitute_fuel (S cap) template js_undefined 0).
End Engine.

End Rich.

(** ** The earlier class: [#substitute] *)

Module Simple.
Import Text Scanner.

Definition cap : nat := 5.

Definition is_sigil (c : ascii) : bool := chr_eqb c "$".

(** [#substitutionRegex] *)
Definition substitutionRegex (s : string) : list piece := scan is_sigil 0 s.

(** [val.match(/^( .* )?:( .* )$/) || []], destructured with [tuple = '']: the
    greedy first group takes the text before the last colon; an optional
    group that would match the empty text does not take part, and leaves the
    namespace [undefined]. *)
Definition namespace_tuple (val : string) : option string * string :=
  match break_last (chr_eqb ":") val with
  | Some (EmptyString, tuple) => (None, tuple)
  | Some (namespace, tuple) => (Some namespace, tuple)
  | None => (None, EmptyString)
  end.

Definition tokens (tuple : string) : list string := map trim (split "," tuple).

Section Engine.
Context {V : Type} `{JsValue V}.
Variable this : Store V.

(** The callback of [value.replace], on the match [${val}]. *)
Definition callback (val : string) : V :=
  let '(namespace, tuple) := namespace_tuple val in
  let key := hd EmptyString (tokens tuple) in
  let defaultValue :=
    match tl (tokens tuple) with
    | d :: _ => js_string d
    | [] => js_undefined
    end in
  js_get (dictionary_at this (property_name namespace)) key defaultValue.

(** [value.replace(regex, callback)] *)
Fixpoint replace (ps : list piece) : string :=
  match ps with
  | [] => EmptyString
  | Lit c :: ps' => String c (replace ps')
  | Span _ val :: ps' => js_ToString (callback val) +:+ replace ps'
  end.

(** [#substitute(value, dictionary, depth)], with fuel as in [Rich]. *)
Fixpoint substitute_fuel (fuel : nat) (value : V) (depth : nat) : option V :=
  match fuel with
  | O => None
  | S fuel' =>
      match js_typeof_string value with
      | None => Some value
      | Some text =>
          let depth := S depth in
          if (cap <? depth)%nat then Some value
          else if negb (has_match (substitutionRegex text)) then Some value
          else substitute_fuel fuel' (js_string (replace (substitutionRegex text))) depth
      end
  end.

Definition substitute (value : V) : V :=
  default value (substitute_fuel (S cap) value 0).
End Engine.

End Simple.

(** ** [resolve]: what is stored for a leaf

    The body of the [forEach] of [resolve], the same in both classes, given
    the leaf [value] and [$value], the result of [#substitute]. *)

Module Leaf.
Import Text.

Section Coercion.
Context {V : Type} `{JsValue V}.

(** The four tokens and the quotes, for a string that is not the leaf. *)
Definition literal (text : string) : V :=
  if String.eqb text "undefined" then js_undefined
  else if String.eqb text "null" then js_null
  else if String.eqb text "true" then js_boolean true
  else if String.eqb text "false" then js_boolean false
  else js_string (strip_quotes text).

(** The value [set(this.#data, key, ...)] receives. *)
Definition stored (value value' : V) : V :=
  match js_typeof_string value' with
  | None => value'                          (* typeof $value !== 'string' *)
  | Some text' =>
      match js_typeof_string value with
      | Some text => if String.eqb text' text then value' else literal text'
      | None => literal text'
      end
  end.
End Coercion.

End Leaf.

(** ** Values as trees

    Objects and arrays are both lists of properties in enumeration order; an
    array is such a list with index names and the kind [KArray].  Numbers are
    the integers.  Property paths are taken free of brackets. *)

Module Tree.
Import Text Props.

Inductive kind : Type := KObject | KArray.

#[local] Unset Elimination Schemes.
Inductive value : Type :=
| VUndefined
| VNull
| VBoolean (b : bool)
| VNumber (z : Z)
| VString (s : string)
| VObj (k : kind) (props : list (string * value)).
#[local] Set Elimination Schemes.

Abbreviation properties := (list (string * value)).

(** [{...}] and [[...]] *)
Definition object (props : properties) : value := VObj KObject props.
Definition array (elements : list value) : value :=
  VObj KArray (imap (fun i v => (pretty i, v)) elements).

(** [value[key]]; a primitive has no property here. *)
Definition property (v : value) (key : string) : value :=
  match v with
  | VObj _ props => default VUndefined (prop props key)
  | _ => VUndefined
  end.

(** JavaScript truthiness. *)
Definition truthy (v : value) : bool :=
  match v with
  | VUndefined | VNull => false
  | VBoolean b => b
  | VNumber z => negb (z =? 0)%Z
  | VString s => negb (String.eqb s EmptyString)
  | VObj _ _ => true
  end.

(** An array index, [/^(?:0|[1-9]\d* )$/]. *)
Definition is_digit (c : ascii) : bool :=
  let n := Ascii.nat_of_ascii c in ((48 <=? n) && (n <=? 57))%nat.

Definition isIndex (key : string) : bool :=
  match key with
  | EmptyString => false
  | String c r =>
      if chr_eqb c "0" then String.eqb r EmptyString
      else is_digit c && negb (contains_char (fun d => negb (is_digit d)) r)
  end.

Fixpoint digits_value (acc : nat) (s : string) : nat :=
  match s with
  | EmptyString => acc
  | String c r => digits_value (10 * acc + (Ascii.nat_of_ascii c - 48)) r
  end.

(** [array.length]: one more than the largest index. *)
Definition array_length {A} (props : list (string * A)) : nat :=
  foldr (fun kv n => if isIndex kv.1 then Nat.max n (S (digits_value 0 kv.1)) else n)
        0%nat props.

Fixpoint lookup_text (props : list (string * string)) (key : string) : string :=
  match props with
  | [] => EmptyString
  | (k, t) :: rest => if String.eqb k key then t else lookup_text rest key
  end.

(** [String(v)]; an array joins its elements with commas, [undefined],
    [null] and holes giving the empty text. *)
Fixpoint ToString (v : value) : string :=
  match v with
  | VUndefined => "undefined"
  | VNull => "null"
  | VBoolean true => "true"
  | VBoolean false => "false"
  | VNumber z => pretty z
  | VString s => s
  | VObj KObject _ => "[object Object]"
  | VObj KArray props =>
      let texts :=
        map (fun kv : string * value =>
               let '(key, w) := kv in
               let text := ToString w in
               (key, match w with
                     | VUndefined | VNull => EmptyString
                     | _ => text
                     end)) props in
      join "," (map (fun i => lookup_text texts (pretty i)) (seq 0 (array_length texts)))
  end.

(** *** lodash [get] and [set] *)

(** [castPath(path, object)]: a path that names a property of [object] is
    that one key; otherwise [stringToPath] splits it at the dots. *)
Definition castPath (object : value) (path : string) : list string :=
  match object with
  | VObj _ props => if has_prop props path then [path] else split "." path
  | _ => split "." path
  end.

(** [baseGet]: the loop stops at [undefined] or [null]; it gives a value
    only when it consumed the whole path. *)
Fixpoint baseGet (object : value) (path : list string) : value :=
  match path with
  | [] => object
  | key :: rest =>
      match object with
      | VUndefined | VNull => VUndefined
      | _ => baseGet (property object key) rest
      end
  end.

(** [get(object, path, defaultValue)] *)
Definition get (object : value) (path : string) (defaultValue : value) : value :=
  match object with
  | VUndefined | VNull => defaultValue
  | _ =>
      match baseGet object (castPath object path) with
      | VUndefined => defaultValue
      | result => result
      end
  end.

(** [baseSet], on the properties of an object: a property on the way that
    holds no object receives a new array when the next key is an index and a
    new object otherwise. *)
Fixpoint baseSet (props : properties) (path : list string) (v : value) : properties :=
  match path with
  | [] => props
  | [key] => assign props key v
  | key :: (next :: _) as rest =>
      match prop props key with
      | Some (VObj k inner) => assign props key (VObj k (baseSet inner rest v))
      | _ =>
          assign props key
            (VObj (if isIndex next then KArray else KObject) (baseSet [] rest v))
      end
  end.

(** [set(object, path, value)] *)
Definition set (object : value) (path : string) (v : value) : value :=
  match object with
  | VObj k props => VObj k (baseSet props (castPath object path) v)
  | _ => object
  end.

(** *** lodash [merge]

    [baseMerge(object, source)]: an object or array of the source is merged
    into what the target holds at the key when that is an object (an array,
    for an array of the source), and into a new object or array otherwise;
    [undefined] is assigned only to a key the target lacks; any other value
    is assigned. *)
Fixpoint mergeValue (objValue : option value) (srcValue : value) : value :=
  match srcValue with
  | VObj sk sprops =>
      let '(k, base) :=
        match objValue, sk with
        | Some (VObj KArray ps), KArray => (KArray, ps)
        | _, KArray => (KArray, [])
        | Some (VObj ok ps), KObject => (ok, ps)
        | _, KObject => (KObject, [])
        end in
      VObj k
        ((fix into (src : properties) (acc : properties) : properties :=
            match src with
            | [] => acc
            | (key, VUndefined) :: rest =>
                into rest (if has_prop acc key then acc else assign acc key VUndefined)
            | (key, sv) :: rest =>
                into rest (assign acc key (mergeValue (prop acc key) sv))
            end) sprops base)
  | _ => srcValue
  end.

Definition baseMerge (object source : properties) : properties :=
  match mergeValue (Some (VObj KObject object)) (VObj KObject source) with
  | VObj _ props => props
  | _ => object
  end.

(** *** The path codec: [flatten] and [unflatten]

    Not part of the class: [Util.flatten(tree, { strict: true })] of
    [@coderich/util] in the richer class, [Flat.flatten(tree)] of [flat] in
    the earlier one.  Both walk into every object and array that has a
    property, and give one entry, with the keys joined by dots, for every
    other value. *)
Fixpoint flatten_at (path : string) (v : value) : list (string * value) :=
  match v with
  | VObj _ ((_ :: _) as props) =>
      flat_map (fun kv : string * value =>
                  let '(key, w) := kv in flatten_at (path +:+ "." +:+ key) w) props
  | _ => [(path, v)]
  end.

Definition flatten (props : properties) : list (string * value) :=
  flat_map (fun kv : string * value => flatten_at kv.1 kv.2) props.

(** [unflatten(data)]: every entry of an object is [set] into a new object,
    its value unflattened; an array keeps its elements, unflattened. *)
Fixpoint unflatten (data : value) : value :=
  match data with
  | VObj KObject props =>
      VObj KObject
        ((fix into (src : properties) (acc : properties) : properties :=
            match src with
            | [] => acc
            | (key, v) :: rest =>
                into rest (baseSet acc (castPath (VObj KObject acc) key) (unflatten v))
            end) props [])
  | VObj KArray props =>
      VObj KArray (map (fun kv : string * value =>
                         let '(key, w) := kv in (key, unflatten w)) props)
  | _ => data
  end.

#[global] Instance tree_value : JsValue value := {|
  js_undefined := VUndefined;
  js_null := VNull;
  js_boolean := VBoolean;
  js_string := VString;
  js_typeof_string := fun v => match v with VString s => Some s | _ => None end;
  js_ToString := ToString;
  js_get := get
|}.

End Tree.

(** ** Paths of a tree

    The notions the statement about repeated resolution is written with. *)

Module Paths.
Import Text Props Tree.














End Paths.

(** ** The class [Config], on trees *)

Inductive edition : Type :=
| Richer    (* the class with [@]-functions and the cap of 10 *)
| Earlier.  (* the class with [$] placeholders only and the cap of 5 *)

Module Config.
Import Text Props Tree.

(** What [#dictionary] holds under a name: the object [#config] itself, as
    [self] does from the start, or a value of its own. *)
Inductive binding : Type :=
| SelfConfig
| Held (v : value).

Record t : Type := {
  data : properties;                                   (* [#data] *)
  config : properties;                                 (* [#config] *)
  functions : string -> option (list value -> value);  (* [#functions] *)
  dictionary : list (string * binding)                 (* [#dictionary] *)
}.

(** The fields of a new instance, before the constructor runs. *)
Definition fresh (functions : string -> option (list value -> value)) : t :=
  {| data := []; config := []; functions := functions;
     dictionary := [("self", SelfConfig)] |}.

Definition with_data (c : t) (data' : properties) : t :=
  {| data := data'; config := config c; functions := functions c;
     dictionary := dictionary c |}.

Definition with_config (c : t) (config' : properties) : t :=
  {| data := data c; config := config'; functions := functions c;
     dictionary := dictionary c |}.

Definition with_dictionary (c : t) (dictionary' : list (string * binding)) : t :=
  {| data := data c; config := config c; functions := functions c;
     dictionary := dictionary' |}.

(** [set(object, path, v)] on the properties of an object. *)
Definition set_in (props : properties) (path : string) (v : value) : properties :=
  baseSet props (castPath (VObj KObject props) path) v.

(** [get(key, defaultValue)]; [None] is the omitted key. *)
Definition get (c : t) (key : option string) (defaultValue : value) : value :=
  match key with
  | None | Some EmptyString => VObj KObject (data c)             (* [!key] *)
  | Some key => Tree.get (VObj KObject (data c)) (colons_to_dots key) defaultValue
  end.

(** [this.#dictionary[name]] *)
Definition dictionary_of (c : t) (name : string) : value :=
  match prop (dictionary c) name with
  | Some SelfConfig => VObj KObject (config c)
  | Some (Held v) => v
  | None => VUndefined
  end.

Definition this (c : t) : Store value :=
  {| dictionary_at := dictionary_of c;
     store_get := fun key defaultValue => get c (Some key) defaultValue;
     function_at := functions c |}.

(** [merge(this.#dictionary, dictionary)]: lodash's [baseMerge] on an object
    one of whose properties is the object [#config]. *)
Fixpoint merge_dictionary (c : t) (source : properties) : t :=
  match source with
  | [] => c
  | (key, VUndefined) :: rest =>
      merge_dictionary
        (if has_prop (dictionary c) key then c
         else with_dictionary c (assign (dictionary c) key (Held VUndefined)))
        rest
  | (key, VObj KObject sprops) :: rest =>
      merge_dictionary
        (match prop (dictionary c) key with
         | Some SelfConfig => with_config c (baseMerge (config c) sprops)
         | Some (Held objValue) =>
             with_dictionary c
               (assign (dictionary c) key
                  (Held (mergeValue (Some objValue) (VObj KObject sprops))))
         | None =>
             with_dictionary c
               (assign (dictionary c) key (Held (mergeValue None (VObj KObject sprops))))
         end)
        rest
  | (key, VObj KArray sprops) :: rest =>
      merge_dictionary
        (with_dictionary c
           (assign (dictionary c) key
              (Held (mergeValue
                       (match prop (dictionary c) key with
                        | Some (Held objValue) => Some objValue
                        | _ => None
                        end)
                       (VObj KArray sprops)))))
        rest
  | (key, sv) :: rest =>
      merge_dictionary (with_dictionary c (assign (dictionary c) key (Held sv))) rest
  end.

Definition substitute (e : edition) (c : t) (leaf : value) : value :=
  match e with
  | Richer => Rich.substitute (this c) leaf
  | Earlier => Simple.substitute (this c) leaf
  end.

(** One round of the [forEach] of [resolve]. *)
Definition resolve_entry (e : edition) (c : t) (entry : string * value) : t :=
  let '(key, leaf) := entry in
  with_data c (set_in (data c) key (Leaf.stored leaf (substitute e c leaf))).

(** How a method call ends: it returns, or it throws an [Error]; [after] is
    the instance as the call leaves it. *)
Record outcome : Type := {
  after : t;
  thrown : option string
}.

Definition reserved_key : string := "Cannot use reserved key " +:+ quoted "self".

(** [resolve(dictionary = {})]; the entries of the flattened [#config] are
    taken before the loop runs. *)
Definition resolve (e : edition) (c : t) (dictionary : properties) : outcome :=
  if truthy (property (VObj KObject dictionary) "self")
  then {| after := c; thrown := Some reserved_key |}
  else
    let c1 := merge_dictionary c dictionary in
    {| after := fold_left (resolve_entry e) (flatten (config c1)) c1;
       thrown := None |}.

(** [set(key, value)] *)
Definition set (e : edition) (c : t) (key : string) (v : value) : t :=
  after (resolve e (with_config c (set_in (config c) (colons_to_dots key) v)) []).

(** [merge(data)] *)
Definition merge (e : edition) (c : t) (data : value) : t :=
  match data with
  | VUndefined | VNull => c
  | _ =>
      after (resolve e
               (with_config c
                  (match unflatten data with
                   | VObj _ source => baseMerge (config c) source
                   | _ => config c
                   end))
               [])
  end.


(** [new Config(data, functions)] *)
Definition new (e : edition) (d : value)
    (functions : string -> option (list value -> value)) : t :=
  merge e (fresh functions) d.

End Config.

(** ** The static methods: [parseEnv], [parseArgs], [parseFile]

    The same in both classes.  [process.env] is a list of variables with
    their texts, [process.argv] a list of texts; the options are [None] when
    the caller leaves them out. *)

Module Static.
Import Text Props Tree.

(** [p] is the text [s] starts with. *)
Fixpoint starts_with (p s : string) : bool :=
  match p with
  | EmptyString => true
  | String a p' =>
      match s with
      | EmptyString => false
      | String b s' => chr_eqb a b && starts_with p' s'
      end
  end.

(** [key.replace(new RegExp(delim, 'g'), '.')], for a delimiter that holds no
    operator of regular expressions: every occurrence of [delim], from the
    left and without overlap, becomes a dot; [skip] characters of [s] belong
    to an occurrence already found.  The empty expression matches before
    every character and at the end. *)
Fixpoint delim_to_dots (delim : string) (skip : nat) (s : string) : string :=
  match s with
  | EmptyString =>
      match delim with
      | EmptyString => "."
      | String _ _ => EmptyString
      end
  | String c r =>
      match skip with
      | S k => delim_to_dots delim k r
      | O =>
          match delim with
          | EmptyString => String "." (String c (delim_to_dots delim 0 r))
          | String _ d' =>
              if starts_with delim s
              then String "." (delim_to_dots delim (String.length d') r)
              else String c (delim_to_dots delim 0 r)
          end
      end
  end.

(** The operators of regular expressions; a text without them, given to
    [new RegExp], matches itself and nothing else. *)
Definition is_operator (c : ascii) : bool :=
  contains_char (chr_eqb c) "\^$.|?*+()[]{}/".

Definition literal (delim : string) : bool := negb (contains_char is_operator delim).

(** [const { delim = '__', pick } = options] *)
Definition delim_of (delim : option string) : string := default "__" delim.

(** The object the [reduce] of [parseEnv] builds: for every key, in order,
    [Object.assign(prev, { [key with dots]: process.env[key] })]. *)
Definition parseEnv_entries (env : list (string * string)) (pick : option (list string))
    (delim : option string) : properties :=
  let keys := default (map fst env) pick in               (* pick || Object.keys(process.env) *)
  fold_left
    (fun prev key =>
       assign prev (delim_to_dots (delim_of delim) 0 key)
         (match prop env key with
          | Some text => VString text
          | None => VUndefined
          end))
    keys [].

(** [Config.parseEnv(options)] *)
Definition parseEnv (env : list (string * string)) (pick : option (list string))
    (delim : option string) : value :=
  unflatten (VObj KObject (parseEnv_entries env pick delim)).

(** The class [[a-zA-z]]: the characters from [A] to [z]. *)
Definition is_A_to_z (c : ascii) : bool :=
  let n := Ascii.nat_of_ascii c in ((65 <=? n) && (n <=? 122))%nat.

Fixpoint skip_leading (s : string) : string :=
  match s with
  | EmptyString => EmptyString
  | String c r => if is_A_to_z c then s else skip_leading r
  end.

(** [key.replace(/^[^a-zA-z]*( .* )$/, '$1')]: the key without the characters
    before its first character of the class; the expression has no match,
    and the key stays, when a line terminator follows that character. *)
Definition strip_leading (key : string) : string :=
  let rest := skip_leading key in
  if contains_char is_line_terminator rest then key else rest.

(** [const [key, value = 'true'] = curr.split('=')], and [$key]. *)
Definition argument (curr : string) : string * string :=
  let parts := split "=" curr in
  (strip_leading (hd EmptyString parts),
   match tl parts with
   | value :: _ => value
   | [] => "true"
   end).

(** [pick && !pick.includes($key)] *)
Definition left_out (pick : option (list string)) (key : string) : bool :=
  match pick with
  | Some names => negb (existsb (String.eqb key) names)
  | None => false
  end.

(** The object the [reduce] of [parseArgs] builds from
    [process.argv.slice(2)]. *)
Definition parseArgs_entries (argv : list string) (pick : option (list string))
    (delim : option string) : properties :=
  fold_left
    (fun prev curr =>
       let '(key, value) := argument curr in
       if left_out pick key then prev
       else assign prev (delim_to_dots (delim_of delim) 0 key) (VString (trim value)))
    (drop 2 argv) [].

(** [Config.parseArgs(options)] *)
Definition parseArgs (argv : list string) (pick : option (list string))
    (delim : option string) : value :=
  unflatten (VObj KObject (parseArgs_entries argv pick delim)).

(** [s.toLowerCase()], on 8-bit code units. *)
Definition to_lower (c : ascii) : ascii :=
  let n := Ascii.nat_of_ascii c in
  if ((65 <=? n) && (n <=? 90) || (192 <=? n) && (n <=? 222) && negb (n =? 215))%nat
  then Ascii.ascii_of_nat (n + 32)
  else c.

Fixpoint toLowerCase (s : string) : string :=
  match s with
  | EmptyString => EmptyString
  | String c r => String (to_lower c) (toLowerCase r)
  end.

(** [filepath.split('.').pop().toLowerCase()] *)
Definition extension (filepath : string) : string :=
  toLowerCase (List.last (split "." filepath) EmptyString).

(** What [parseFile] calls, outside the class: [require], [Yaml.load],
    [JSON.parse], and [#readFileSync(filepath, 'utf8')]. *)
Record Loaders (A : Type) : Type := {
  require : string -> A;
  yaml_load : string -> A;
  json_parse : string -> A;
  readFileSync : string -> string
}.
Arguments require {A}.
Arguments yaml_load {A}.
Arguments json_parse {A}.
Arguments readFileSync {A}.

Definition unsupported (filepath : string) : string :=
  "Unsupported file type " +:+ filepath.

(** [Config.parseFile(filepath)]: the parsed data, or the message of the
    error it throws. *)
Definition parseFile {A} (fs : Loaders A) (filepath : string) : A + string :=
  let ext := extension filepath in
  if String.eqb ext "js" then inl (require fs filepath)
  else if String.eqb ext "yml" || String.eqb ext "yaml"
  then inl (yaml_load fs (readFileSync fs filepath))
  else if String.eqb ext "json" then inl (json_parse fs (readFileSync fs filepath))
  else inr (unsupported filepath).

End Static.

(** ** Stores used in the examples *)

Module Samples.
Import Text Props Tree.

Definition no_functions : string -> option (list value -> value) := fun _ => None.

(** [{ a: '${self:a}' }]: a leaf that refers to itself. *)
Definition circular (e : edition) : Config.t :=
  Config.new e (object [("a", VString "${self:a}")]) no_functions.

(** [{ app: { name: 'gozio-config' } }] *)
Definition app_named (e : edition) : Config.t :=
  Config.new e (object [("app", object [("name", VString "gozio-config")])]) no_functions.


(** [{ app: { name: 'gozio-config' }, ref: '${self:app.name}' }] *)
Definition with_reference (e : edition) : Config.t :=
  Config.new e
    (object [("app", object [("name", VString "gozio-config")]);
             ("ref", VString "${self:app.name}")])
    no_functions.

(** [{ eq: (a, b) => Boolean(a === b) }], on strings. *)
Definition eq_function (args : list value) : value :=
  match args with
  | VString a :: VString b :: _ => VBoolean (String.eqb a b)
  | _ => VBoolean false
  end.

Definition eq_registry (name : string) : option (list value -> value) :=
  if String.eqb name "eq" then Some eq_function else None.

(** [{ app: { name: 'gozio-config', bool: '@{eq:${self:app.name}, gozio-config}' } }] *)
Definition with_function : Config.t :=
  Config.new Richer
    (object [("app", object [("name", VString "gozio-config");
                             ("bool", VString "@{eq:${self:app.name}, gozio-config}")])])
    eq_registry.

(** The configuration the test suite of the classes starts from. *)
Definition suite : value :=
  object
    [("env", VString "${env:GOZIO_ENV, dev}");
     ("self", object [("test", VString "${self:app.name}")]);
     ("lib",
      object
        [("env", VString "${self:GOZIO_ENV, dev}");
         ("utilities",
          object
            [("aws",
              object
                [("lambda",
                  object
                    [("locationResolver",
                      VString "location-resolver-${self:lib.env}")])])])]);
     ("app",
      object
        [("a", VString "a"); ("b", VString "b"); ("c", VString "c");
         ("arr", array [VString "${self:app.a}"; VString "${self:app.b}";
                        VString "${self:app.c}"]);
         ("tricky-self-name",
          VString "tricky-${self:app.gozio-config}-${self:app.name}-${self:app.name}");
         ("gozio-config", VString "${self:app.name}");
         ("secret", VString "${sm:atlas.apiPublicKey}");
         ("secret2", VString "${self:app.${sm:name}}");
         ("name", VString "gozio-config");
         ("defaultUndefined", VString "${self:app.nothing}");
         ("defaultUndefined2",
          VString ("${self:app.nothing, " +:+ quoted "undefined" +:+ "}"));
         ("defaultBoolean", VString "${self:app.nothing, true}");
         ("defaultString", VString "${self:app.nothing, 'true'}");
         ("apostrophe", VString "${self:app.nothing, rich's world}");
         ("absoluteSingleQuote", VString "${self:app.nothing, ''hello''}");
         ("absoluteDoubleQuote",
          VString ("${self:app.nothing, '" +:+ quoted "hello" +:+ "'}"));
         ("selfRef", VString "${self:self.test}");
         ("anotherEnv", VString "another-${self:env}");
         ("dynamicDefault",
          VString "${self:app.secret, ${self:lib.utilities.aws.lambda.locationResolver}}");
         ("dynamicHttpDefault",
          VString "${sm:auth0.audience, https://gozio-dev.auth0.com/api/v2/}")])].

(** [{ sm: secrets, env: process.env }], the dictionary the suite resolves
    with. *)
Definition secrets : properties :=
  [("sm", object [("name", VString "name");
                  ("atlas", object [("apiPublicKey", VString "foobar")])]);
   ("env", object [("GOZIO_ENV", VString "test")])].

(** The keys the suite reads. *)
Definition suite_keys : list string :=
  ["env"; "app.name"; "app.selfRef"; "self.test"; "app.secret"; "app.secret2";
   "app.anotherEnv"; "app.gozio-config"; "app.tricky-self-name"; "app.dynamicDefault";
   "app.dynamicHttpDefault"; "app.defaultUndefined"; "app.defaultUndefined2";
   "app.defaultBoolean"; "app.defaultString";
   "lib:utilities:aws:lambda:locationResolver"; "app.apostrophe";
   "app.absoluteSingleQuote"; "app.absoluteDoubleQuote"; "app.arr"; "name"].

(** [config.get(key)] for each of them. *)
Definition read_suite (c : Config.t) : list value :=
  map (fun key => Config.get c (Some key) VUndefined) suite_keys.

(** The store [{ app: { name: 'gozio-config' } }] after
    [config.resolve({ sm: { port: 8080 } })]. *)
Definition with_port : Config.t :=
  Config.after
    (Config.resolve Richer (app_named Richer) [("sm", object [("port", VNumber 8080)])]).



(** [process.argv] and [process.env] as the test suite sets them. *)
Definition argv : list string :=
  ["node"; "jest"; "--config=jest.config.js"; "--verbose"].

Definition env : list (string * string) :=
  [("testMe", "testMe"); ("test__me__nested", "testMeNested"); ("GOZIO_ENV", "test")].


End Samples.

(** ** The statements of the specification that the classes do not follow

    Each definition follows the words of the specification; the properties
    below compare it with what the class computes. *)

Module Claimed.
Import Text Scanner.

(** "The first non-empty, non-undefined token wins." *)
Definition fallbackValue (args : list string) : option string :=
  List.find (fun t => negb (String.eqb t EmptyString) && negb (String.eqb t "undefined")) args.

(** "Strip one layer of matching leading/trailing single or double quotes." *)
Definition strip_matching_quotes (s : string) : string :=
  match s with
  | String q1 r =>
      match unsnoc r with
      | Some (body, q2) => if is_quote q1 && chr_eqb q1 q2 then body else s
      | None => s
      end
  | EmptyString => s
  end.



End Claimed.


(** ** Values as references

    The same class on a heap of objects: a value is a primitive or the
    location of an object or array; [get], [set] and [merge] of lodash read
    and write the heap, and two values are the same object when they are the
    same location.  A new object takes the first free location.  Walks that
    follow references carry fuel, the number of objects of the heap, which is
    enough for every heap without a cycle. *)

Module Refs.
Import Text Props.

Definition loc : Type := nat.

Inductive val : Type :=
| VUndefined
| VNull
| VBoolean (b : bool)
| VNumber (z : Z)
| VString (s : string)
| VRef (l : loc).

Record cell : Type := {
  cell_kind : Tree.kind;
  cell_props : list (string * val)
}.

Abbreviation heap := (list cell).

Definition empty_cell (k : Tree.kind) : cell := {| cell_kind := k; cell_props := [] |}.

(** [new Object] or [new Array]: the heap with the new cell, and its location. *)
Definition alloc (h : heap) (c : cell) : heap * loc := ((h ++ [c])%list, length h).

(** The object a value refers to. *)
Definition cell_of (h : heap) (v : val) : option cell :=
  match v with
  | VRef l => h !! l
  | _ => None
  end.

(** [value[key]] *)
Definition property (h : heap) (v : val) (key : string) : val :=
  match cell_of h v with
  | Some c => default VUndefined (prop (cell_props c) key)
  | None => VUndefined
  end.

(** [key in value], own properties. *)
Definition has_property (h : heap) (v : val) (key : string) : bool :=
  match cell_of h v with
  | Some c => has_prop (cell_props c) key
  | None => false
  end.

(** [object[key] = v], on the object at [l]. *)
Definition assign_at (h : heap) (l : loc) (key : string) (v : val) : heap :=
  match h !! l with
  | Some c =>
      <[l := {| cell_kind := cell_kind c; cell_props := assign (cell_props c) key v |}]> h
  | None => h
  end.

Definition is_array (h : heap) (l : loc) : bool :=
  match h !! l with
  | Some {| cell_kind := Tree.KArray |} => true
  | _ => false
  end.

Definition truthy (v : val) : bool :=
  match v with
  | VUndefined | VNull => false
  | VBoolean b => b
  | VNumber z => negb (z =? 0)%Z
  | VString s => negb (String.eqb s EmptyString)
  | VRef _ => true
  end.

(** [String(v)] *)
Fixpoint ToString_fuel (fuel : nat) (h : heap) (v : val) : string :=
  match v with
  | VUndefined => "undefined"
  | VNull => "null"
  | VBoolean true => "true"
  | VBoolean false => "false"
  | VNumber z => pretty z
  | VString s => s
  | VRef l =>
      match h !! l with
      | Some {| cell_kind := Tree.KArray; cell_props := props |} =>
          match fuel with
          | O => EmptyString
          | S fuel' =>
              let texts :=
                map (fun kv : string * val =>
                       let '(key, w) := kv in
                       (key, match w with
                             | VUndefined | VNull => EmptyString
                             | _ => ToString_fuel fuel' h w
                             end)) props in
              join "," (map (fun i => Tree.lookup_text texts (pretty i))
                            (seq 0 (Tree.array_length texts)))
          end
      | _ => "[object Object]"
      end
  end.

Definition ToString (h : heap) (v : val) : string := ToString_fuel (length h) h v.

(** *** lodash [get], [set], [merge] *)

Definition castPath (h : heap) (object : val) (path : string) : list string :=
  if has_property h object path then [path] else split "." path.

Fixpoint baseGet (h : heap) (object : val) (path : list string) : val :=
  match path with
  | [] => object
  | key :: rest =>
      match object with
      | VUndefined | VNull => VUndefined
      | _ => baseGet h (property h object key) rest
      end
  end.

Definition get (h : heap) (object : val) (path : string) (defaultValue : val) : val :=
  match object with
  | VUndefined | VNull => defaultValue
  | _ =>
      match baseGet h object (castPath h object path) with
      | VUndefined => defaultValue
      | result => result
      end
  end.

(** [baseSet], from the object at [l]. *)
Fixpoint baseSet (h : heap) (l : loc) (path : list string) (v : val) : heap :=
  match path with
  | [] => h
  | key :: rest =>
      match rest with
      | [] => assign_at h l key v
      | next :: _ =>
          match property h (VRef l) key with
          | VRef l' => baseSet h l' rest v
          | _ =>
              let '(h1, l') :=
                alloc h (empty_cell (if Tree.isIndex next then Tree.KArray else Tree.KObject)) in
              baseSet (assign_at h1 l key (VRef l')) l' rest v
          end
      end
  end.

Definition set (h : heap) (object : val) (path : string) (v : val) : heap :=
  match object with
  | VRef l => baseSet h l (castPath h object path) v
  | _ => h
  end.

(** [baseMerge(object, source)]: an object or array of the source is merged
    into the object the target holds at the key (an array, for an array of
    the source), or into a new object or array, which the key then receives;
    no reference of the source is stored. *)
Fixpoint baseMerge (fuel : nat) (h : heap) (object source : loc) : heap :=
  match fuel with
  | O => h
  | S fuel' =>
      match h !! source with
      | None => h
      | Some sc =>
          fold_left
            (fun (h : heap) (entry : string * val) =>
               let '(key, srcValue) := entry in
               match srcValue with
               | VRef sl =>
                   let '(h1, newValue) :=
                     match property h (VRef object) key with
                     | VRef ol =>
                         if is_array h sl && negb (is_array h ol)
                         then alloc h (empty_cell Tree.KArray)
                         else (h, ol)
                     | _ =>
                         alloc h (empty_cell
                                    (if is_array h sl then Tree.KArray else Tree.KObject))
                     end in
                   assign_at (baseMerge fuel' h1 newValue sl) object key (VRef newValue)
               | VUndefined =>
                   if has_property h (VRef object) key then h
                   else assign_at h object key VUndefined
               | _ => assign_at h object key srcValue
               end)
            (cell_props sc) h
      end
  end.

(** [merge(object, source)] *)
Definition merge (h : heap) (object : loc) (source : val) : heap :=
  match source with
  | VRef sl => baseMerge (S (length h)) h object sl
  | _ => h
  end.

(** *** The path codec *)

Fixpoint flatten_at (fuel : nat) (h : heap) (path : string) (v : val)
    : list (string * val) :=
  match fuel with
  | O => [(path, v)]
  | S fuel' =>
      match cell_of h v with
      | Some {| cell_props := (_ :: _) as props |} =>
          flat_map (fun kv : string * val =>
                      let '(key, w) := kv in
                      flatten_at fuel' h (path +:+ "." +:+ key) w) props
      | _ => [(path, v)]
      end
  end.

Definition flatten (h : heap) (root : loc) : list (string * val) :=
  match h !! root with
  | Some c =>
      flat_map (fun kv : string * val => flatten_at (length h) h kv.1 kv.2) (cell_props c)
  | None => []
  end.

(** [unflatten(data)]: a new object for an object, every entry [set] into it
    with its value unflattened; a new array for an array; any other value as
    it is.  Without fuel, where the library does not return, [undefined]. *)
Fixpoint unflatten (fuel : nat) (h : heap) (data : val) : heap * val :=
  match data with
  | VRef l =>
      match fuel, h !! l with
      | S fuel', Some c =>
          let '(h0, root) := alloc h (empty_cell (cell_kind c)) in
          (fold_left
             (fun (h : heap) (entry : string * val) =>
                let '(key, v) := entry in
                let '(h1, v') := unflatten fuel' h v in
                match cell_kind c with
                | Tree.KObject => baseSet h1 root (castPath h1 (VRef root) key) v'
                | Tree.KArray => assign_at h1 root key v'
                end)
             (cell_props c) h0,
           VRef root)
      | _, _ => (h, VUndefined)
      end
  | _ => (h, data)
  end.

(** The interface of the engine, on the heap [h]. *)
Definition heap_value (h : heap) : JsValue val := {|
  js_undefined := VUndefined;
  js_null := VNull;
  js_boolean := VBoolean;
  js_string := VString;
  js_typeof_string := fun v => match v with VString s => Some s | _ => None end;
  js_ToString := ToString h;
  js_get := get h
|}.

(** *** The class *)

Record t : Type := {
  data : loc;                                       (* [#data] *)
  config : loc;                                     (* [#config] *)
  dictionary : loc;                                 (* [#dictionary] *)
  functions : string -> option (list val -> val)    (* [#functions] *)
}.

(** [get(key, defaultValue)] *)
Definition get_key (h : heap) (c : t) (key : option string) (defaultValue : val) : val :=
  match key with
  | None | Some EmptyString => VRef (data c)
  | Some key => get h (VRef (data c)) (colons_to_dots key) defaultValue
  end.

Definition this (h : heap) (c : t) : Store val :=
  {| dictionary_at := fun name => property h (VRef (dictionary c)) name;
     store_get := fun key defaultValue => get_key h c (Some key) defaultValue;
     function_at := functions c |}.

Definition substitute (e : edition) (h : heap) (c : t) (leaf : val) : val :=
  match e with
  | Richer => Rich.substitute (H := heap_value h) (this h c) leaf
  | Earlier => Simple.substitute (H := heap_value h) (this h c) leaf
  end.

Definition resolve_entry (e : edition) (c : t) (h : heap) (entry : string * val) : heap :=
  let '(key, leaf) := entry in
  set h (VRef (data c)) key
    (Leaf.stored (H := heap_value h) leaf (substitute e h c leaf)).

(** [resolve(dictionary)]; [None] is the omitted dictionary.  The heap as the
    call leaves it, and the message of the error when it throws. *)
Definition resolve (e : edition) (h : heap) (c : t) (dictionary : option val)
    : heap * option string :=
  let dictionary' := default VUndefined dictionary in
  if truthy (property h dictionary' "self")
  then (h, Some Config.reserved_key)
  else
    let h1 := merge h (Refs.dictionary c) dictionary' in
    (fold_left (resolve_entry e c) (flatten h1 (config c)) h1, None).

(** [set(key, value)] *)
Definition set_key (e : edition) (h : heap) (c : t) (key : string) (v : val) : heap :=
  (resolve e (set h (VRef (config c)) (colons_to_dots key) v) c None).1.

(** [merge(data)] *)
Definition merge_data (e : edition) (h : heap) (c : t) (d : val) : heap :=
  match d with
  | VUndefined | VNull => h
  | _ =>
      let '(h1, source) := unflatten (length h) h d in
      (resolve e (merge h1 (config c) source) c None).1
  end.

(** [new Config(data, functions)]: the three objects of the instance follow
    the objects of the heap. *)
Definition new (e : edition) (h : heap) (d : val)
    (functions : string -> option (list val -> val)) : heap * t :=
  let c := {| data := length h; config := S (length h); dictionary := S (S (length h));
              functions := functions |} in
  let h0 := (h ++ [empty_cell Tree.KObject; empty_cell Tree.KObject;
                   {| cell_kind := Tree.KObject;
                      cell_props := [("self", VRef (config c))] |}])%list in
  (merge_data e h0 c d, c).

(** The tree a value stands for. *)
Fixpoint read_back (fuel : nat) (h : heap) (v : val) : Tree.value :=
  match v with
  | VUndefined => Tree.VUndefined
  | VNull => Tree.VNull
  | VBoolean b => Tree.VBoolean b
  | VNumber z => Tree.VNumber z
  | VString s => Tree.VString s
  | VRef l =>
      match fuel, h !! l with
      | S fuel', Some c =>
          Tree.VObj (cell_kind c)
            (map (fun kv : string * val => (kv.1, read_back fuel' h kv.2)) (cell_props c))
      | _, _ => Tree.VUndefined
      end
  end.

(** A tree as objects of the heap: the heap with them, and the value. *)
Fixpoint store_tree (h : heap) (v : Tree.value) : heap * val :=
  match v with
  | Tree.VUndefined => (h, VUndefined)
  | Tree.VNull => (h, VNull)
  | Tree.VBoolean b => (h, VBoolean b)
  | Tree.VNumber z => (h, VNumber z)
  | Tree.VString s => (h, VString s)
  | Tree.VObj k props =>
      let '(h0, l) := alloc h (empty_cell k) in
      ((fix each (ps : Tree.properties) (h : heap) : heap :=
          match ps with
          | [] => h
          | (key, w) :: rest =>
              let '(h1, w') := store_tree h w in
              each rest (assign_at h1 l key w')
          end) props h0,
       VRef l)
  end.

End Refs.

(** ** Regions of the heap

    The notions the aliasing statements are written with: a set [R] of
    locations, the objects of which refer to objects of [R] only. *)

Module Region.
Import Text Props Refs.

(** The value is a primitive, or an object of [R] that the heap holds. *)
Definition inside (R : loc -> Prop) (h : heap) (v : val) : Prop :=
  match v with
  | VRef l => R l /\ l < length h
  | _ => True
  end.

(** The objects of [R] hold values inside [R] only. *)
Definition closed (R : loc -> Prop) (h : heap) : Prop :=
  forall l c, R l -> h !! l = Some c ->
              Forall (fun kv : string * val => inside R h kv.2) (cell_props c).

(** The locations still free belong to [R]. *)
Definition grows (R : loc -> Prop) (h : heap) : Prop :=
  forall l, length h <= l -> R l.

(** From [h] to [h'] the heap grew, [R] stayed closed, and no object outside
    [R] changed. *)
Definition step (R : loc -> Prop) (h h' : heap) : Prop :=
  closed R h' /\ length h <= length h' /\ forall l, ~ R l -> h' !! l = h !! l.

(** The two heaps have the same objects of [R]. *)
Definition same_on (R : loc -> Prop) (h h' : heap) : Prop :=
  forall l, R l -> l < length h -> h' !! l = h !! l.


(** The functions of the registry give values inside [R] for arguments
    inside [R]. *)
Definition functions_inside (R : loc -> Prop) (c : t) : Prop :=
  forall name f h args,
    functions c name = Some f -> Forall (inside R h) args -> inside R h (f args).

(** The three objects of the instance are objects of [R] in the heap. *)
Definition roots_inside (R : loc -> Prop) (h : heap) (c : t) : Prop :=
  inside R h (VRef (data c)) /\ inside R h (VRef (config c))
  /\ inside R h (VRef (dictionary c)).

End Region.

(** ** Heaps used in the examples *)

Module RefSamples.
Import Text Props Refs.

Definition no_functions : string -> option (list val -> val) := fun _ => None.

(** [const config = new Config()], and then [const obj = { a: 'a' }]: the
    instance takes the locations 0, 1 and 2, and the object of the caller the
    location 3. *)
Definition instance : t := Eval vm_compute in (new Richer [] VUndefined no_functions).2.
Definition obj : loc := 3.
Definition start : heap :=
  Eval vm_compute in
    (alloc (new Richer [] VUndefined no_functions).1
       {| cell_kind := Tree.KObject; cell_props := [("a", VString "a")] |}).1.

(** The objects of the caller. *)
Definition foreign (l : loc) : Prop := l = obj.

(** [config.set('app.object', obj)] *)
Definition after_set : heap := set_key Richer start instance "app.object" (VRef obj).

(** [config.merge({ app: { object: obj } })], the argument at the locations 4
    and 5 *)
Definition after_merge : heap :=
  let '(h1, app) :=
    alloc start {| cell_kind := Tree.KObject; cell_props := [("object", VRef obj)] |} in
  let '(h2, argument) :=
    alloc h1 {| cell_kind := Tree.KObject; cell_props := [("app", VRef app)] |} in
  merge_data Richer h2 instance (VRef argument).

(** [obj.b = 'b'] *)
Definition mutate (h : heap) : heap := assign_at h obj "b" (VString "b").

(** [config.set('something', 'else')] *)
Definition touch (h : heap) : heap := set_key Richer h instance "something" (VString "else").


(** The suite on the heap: the instance, and the instance after
    [config.resolve({ sm: secrets, env: process.env })], each read back as
    trees. *)
Definition read_suite (e : edition) (resolved : bool) : list Tree.value :=
  let '(h, d) := store_tree [] Samples.suite in
  let '(h1, c) := new e h d no_functions in
  let h2 :=
    if resolved
    then let '(h', dictionary) := store_tree h1 (Tree.object Samples.secrets) in
         (resolve e h' c (Some dictionary)).1
    else h1 in
  map (fun key => read_back (length h2) h2 (get_key h2 c (Some key) VUndefined))
      Samples.suite_keys.

End RefSamples.
(** * Properties *)

(** ** Text *)

Module TextFacts.
Import Text.

Lemma chr_eqb_eq (a b : ascii) : chr_eqb a b = true <-> a = b.
Proof. apply Ascii.eqb_eq. Qed.

Lemma chr_eqb_refl (a : ascii) : chr_eqb a a = true.
Proof. apply Ascii.eqb_refl. Qed.

Lemma app_cons (x : ascii) (a b : string) : String x a +:+ b = String x (a +:+ b).
Proof. reflexivity. Qed.

Lemma app_empty_l (a : string) : "" +:+ a = a.
Proof. reflexivity. Qed.

Lemma app_assoc' (a b c : string) : (a +:+ b) +:+ c = a +:+ (b +:+ c).
Proof.
  induction a as [|x a IH]; [reflexivity|].
  rewrite !app_cons. now rewrite IH.
Qed.

Lemma app_empty_r (a : string) : a +:+ "" = a.
Proof.
  induction a as [|x a IH]; [reflexivity|].
  rewrite app_cons. now rewrite IH.
Qed.


(** [unsnoc] undoes the addition of a last character. *)
Lemma unsnoc_snoc (body : string) (z : ascii) :
  unsnoc (body +:+ String z "") = Some (body, z).
Proof.
  induction body as [|x body IH]; [reflexivity|].
  rewrite app_cons. simpl. now rewrite IH.
Qed.

Lemma unsnoc_Some (s body : string) (z : ascii) :
  unsnoc s = Some (body, z) -> s = body +:+ String z "".
Proof.
  revert body. induction s as [|x s IH]; intros body; simpl; [discriminate|].
  destruct (unsnoc s) as [[b y]|] eqn:E.
  - intros [= <- <-]. rewrite app_cons. f_equal. now apply IH.
  - intros [= <- <-]. destruct s; [reflexivity|].
    simpl in E. destruct (unsnoc s) as [[? ?]|]; discriminate.
Qed.

(** What the quote expression does: a string between two quote characters,
    on one line, loses both; any other string is left as it is. *)
Lemma strip_quotes_between (q1 q2 : ascii) (body : string) :
  is_quote q1 = true -> is_quote q2 = true ->
  contains_char is_line_terminator body = false ->
  strip_quotes (String q1 (body +:+ String q2 "")) = body.
Proof.
  intros H1 H2 Hb. unfold strip_quotes.
  now rewrite unsnoc_snoc, H1, H2, Hb.
Qed.

Lemma strip_quotes_other (s : string) :
  (forall q1 q2 body,
    s = String q1 (body +:+ String q2 "") ->
    is_quote q1 && is_quote q2 && negb (contains_char is_line_terminator body) = false) ->
  strip_quotes s = s.
Proof.
  intros Hs. destruct s as [|q1 r]; [reflexivity|]. unfold strip_quotes.
  destruct (unsnoc r) as [[body q2]|] eqn:E; [|reflexivity].
  apply unsnoc_Some in E. subst r.
  now rewrite (Hs q1 q2 body eq_refl).
Qed.


Lemma break_first_app (x : ascii) (a b : string) :
  occurs x a = false ->
  break_first (chr_eqb x) (a +:+ String x b) = Some (a, b).
Proof.
  induction a as [|c a IH]; intros Ha.
  - rewrite app_empty_l. simpl. now rewrite chr_eqb_refl.
  - rewrite app_cons. unfold occurs in Ha. simpl in Ha.
    apply orb_false_iff in Ha as [Hc Ha]. simpl. rewrite Hc.
    now rewrite (IH Ha).
Qed.

Lemma break_first_None (x : ascii) (a : string) :
  occurs x a = false -> break_first (chr_eqb x) a = None.
Proof.
  induction a as [|c a IH]; intros Ha; [reflexivity|].
  unfold occurs in Ha. simpl in Ha. apply orb_false_iff in Ha as [Hc Ha].
  simpl. rewrite Hc. now rewrite (IH Ha).
Qed.

Lemma break_last_None (x : ascii) (a : string) :
  occurs x a = false -> break_last (chr_eqb x) a = None.
Proof.
  induction a as [|c a IH]; intros Ha; [reflexivity|].
  unfold occurs in Ha. simpl in Ha. apply orb_false_iff in Ha as [Hc Ha].
  simpl. rewrite (IH Ha). now rewrite Hc.
Qed.

Lemma break_last_app (x : ascii) (a b : string) :
  occurs x b = false ->
  break_last (chr_eqb x) (a +:+ String x b) = Some (a, b).
Proof.
  intros Hb. induction a as [|c a IH].
  - rewrite app_empty_l. simpl. rewrite (break_last_None x b Hb).
    now rewrite chr_eqb_refl.
  - rewrite app_cons. simpl. now rewrite IH.
Qed.

Lemma split_no_sep (sep : ascii) (w : string) :
  occurs sep w = false -> split sep w = [w].
Proof.
  induction w as [|c w IH]; intros Hw; [reflexivity|].
  unfold occurs in Hw. simpl in Hw. apply orb_false_iff in Hw as [Hc Hw].
  simpl. rewrite Hc. now rewrite (IH Hw).
Qed.

Lemma split_app (sep : ascii) (w rest : string) :
  occurs sep w = false ->
  split sep (w +:+ String sep rest) = w :: split sep rest.
Proof.
  induction w as [|c w IH]; intros Hw.
  - rewrite app_empty_l. simpl. now rewrite chr_eqb_refl.
  - unfold occurs in Hw. simpl in Hw. apply orb_false_iff in Hw as [Hc Hw].
    rewrite app_cons. simpl. rewrite Hc. now rewrite (IH Hw).
Qed.

(** [split] undoes [join] on parts free of the separator. *)
Lemma split_join (sep : ascii) (w : string) (ws : list string) :
  Forall (fun t => occurs sep t = false) (w :: ws) ->
  split sep (join (String sep "") (w :: ws)) = w :: ws.
Proof.
  revert w. induction ws as [|w' ws IH]; intros w Hall.
  - apply split_no_sep. now inversion Hall.
  - inversion Hall as [|? ? Hw Hrest]; subst.
    change (join (String sep "") (w :: w' :: ws))
      with (w +:+ String sep "" +:+ join (String sep "") (w' :: ws)).
    rewrite app_cons, app_empty_l.
    rewrite (split_app sep w _ Hw). now rewrite (IH w' Hrest).
Qed.

End TextFacts.

(** ** The recursion of [#substitute] *)

Module RichFacts.
Import Text Scanner Rich.

Section Engine.
Context {V : Type} `{JsValue V}.
Variable this : Store V.

(** The depth counter bounds the recursion: a call at [depth] needs no more
    than [cap - depth + 1] nested calls. *)
Lemma rich_substitute_fuel_enough (fuel : nat) :
  forall (template default : V) (depth : nat),
    cap - depth < fuel ->
    is_Some (substitute_fuel this fuel template default depth).
Proof.
  induction fuel as [|fuel IH]; intros template default depth Hfuel; [lia|].
  simpl. destruct (js_typeof_string template) as [text|]; [|eauto].
  destruct (cap <? S depth)%nat eqn:Hcap; [eauto|].
  destruct (negb (has_match (substitutionRegex text))); [eauto|].
  destruct (replace this text (substitutionRegex text) _) as [text' vars].
  apply Nat.ltb_ge in Hcap.
  destruct (IH (js_string text') (defaultValue vars) (S depth)) as [v Hv]; [lia|].
  rewrite Hv. eauto.
Qed.

(** More fuel than needed does not change the result. *)
Lemma rich_substitute_fuel_mono (fuel : nat) :
  forall (template default : V) (depth : nat) (v : V),
    substitute_fuel this fuel template default depth = Some v ->
    substitute_fuel this (S fuel) template default depth = Some v.
Proof.
  induction fuel as [|fuel IH]; intros template default depth v; [discriminate|].
  intros Hv. simpl in Hv.
  remember (S fuel) as fuel1 eqn:Hfuel1. simpl.
  destruct (js_typeof_string template) as [text|]; [|exact Hv].
  destruct (cap <? S depth)%nat; [exact Hv|].
  destruct (negb (has_match (substitutionRegex text))); [exact Hv|].
  destruct (replace this text (substitutionRegex text) _) as [text' vars].
  destruct (substitute_fuel this fuel (js_string text') (defaultValue vars) (S depth))
    as [w|] eqn:Hw; [|discriminate].
  subst fuel1. now rewrite (IH _ _ _ _ Hw).
Qed.

(** At the cap the template comes back as it is. *)
Lemma rich_substitute_fuel_at_cap (fuel : nat) (template default : V) (depth : nat) :
  cap <= depth ->
  substitute_fuel this (S fuel) template default depth = Some template.
Proof.
  intros Hcap. simpl. destruct (js_typeof_string template); [|reflexivity].
  assert ((cap <? S depth)%nat = true) as -> by (apply Nat.ltb_lt; lia).
  reflexivity.
Qed.

(** A string without a match of the pattern comes back as it is. *)
Lemma rich_substitute_no_match (leaf : V) (text : string) :
  js_typeof_string leaf = Some text ->
  has_match (substitutionRegex text) = false ->
  substitute this leaf = leaf.
Proof.
  intros Hleaf Hno. unfold substitute. simpl. now rewrite Hleaf, Hno.
Qed.

Lemma rich_substitute_not_string (leaf : V) :
  js_typeof_string leaf = None -> substitute this leaf = leaf.
Proof. intros Hleaf. unfold substitute. simpl. now rewrite Hleaf. Qed.
End Engine.

End RichFacts.

Module SimpleFacts.
Import Text Scanner Simple.

Section Engine.
Context {V : Type} `{JsValue V}.
Variable this : Store V.

Lemma simple_substitute_fuel_enough (fuel : nat) :
  forall (leaf : V) (depth : nat),
    cap - depth < fuel ->
    is_Some (substitute_fuel this fuel leaf depth).
Proof.
  induction fuel as [|fuel IH]; intros leaf depth Hfuel; [lia|].
  simpl. destruct (js_typeof_string leaf) as [text|]; [|eauto].
  destruct (cap <? S depth)%nat eqn:Hcap; [eauto|].
  destruct (negb (has_match (substitutionRegex text))); [eauto|].
  apply Nat.ltb_ge in Hcap. apply IH. lia.
Qed.

Lemma simple_substitute_fuel_at_cap (fuel : nat) (leaf : V) (depth : nat) :
  cap <= depth ->
  substitute_fuel this (S fuel) leaf depth = Some leaf.
Proof.
  intros Hcap. simpl. destruct (js_typeof_string leaf); [|reflexivity].
  assert ((cap <? S depth)%nat = true) as -> by (apply Nat.ltb_lt; lia).
  reflexivity.
Qed.

Lemma simple_substitute_no_match (leaf : V) (text : string) :
  js_typeof_string leaf = Some text ->
  has_match (substitutionRegex text) = false ->
  substitute this leaf = leaf.
Proof.
  intros Hleaf Hno. unfold substitute. simpl. now rewrite Hleaf, Hno.
Qed.
End Engine.

End SimpleFacts.


(** ** The scanner *)

Module ScannerFacts.
Import Text Scanner TextFacts.

Section WithSigil.
Variable is_sigil : ascii -> bool.

Lemma scan_skip_app (a b : string) :
  scan is_sigil (String.length a) (a +:+ b) = scan is_sigil 0 b.
Proof.
  induction a as [|c a IH]; [reflexivity|].
  rewrite app_cons. simpl. exact IH.
Qed.

Lemma match_at_no_sigil (c : ascii) (r : string) :
  is_sigil c = false -> match_at is_sigil (String c r) = None.
Proof. intros Hc. simpl. destruct r; [reflexivity|]. now rewrite Hc. Qed.

(** A text without a sigil has no match. *)
Lemma scan_no_sigil (s : string) :
  contains_char is_sigil s = false -> scan is_sigil 0 s = lits s.
Proof.
  induction s as [|c r IH]; intros Hs; [reflexivity|].
  simpl in Hs. apply orb_false_iff in Hs as [Hc Hr].
  change (scan is_sigil 0 (String c r))
    with (match match_at is_sigil (String c r) with
          | Some (id, val) => Span id val :: scan is_sigil (String.length val + 2) r
          | None => Lit c :: scan is_sigil 0 r
          end).
  rewrite (match_at_no_sigil c r Hc). simpl. now rewrite (IH Hr).
Qed.

Lemma until_brace_Some (r val : string) :
  until_brace r = Some val ->
  exists rest, r = val +:+ String "}" rest /\
               contains_char is_line_terminator val = false.
Proof.
  revert val. induction r as [|c r IH]; intros val; simpl; [discriminate|].
  destruct (chr_eqb c "}") eqn:Hc.
  - intros [= <-]. apply chr_eqb_eq in Hc. subst c. now exists r.
  - destruct (is_line_terminator c) eqn:Ht; [discriminate|].
    destruct (until_brace r) as [v|]; [|discriminate].
    intros [= <-]. destruct (IH v eq_refl) as (rest & -> & Hv).
    exists rest. split; [reflexivity|]. simpl. now rewrite Ht.
Qed.


Lemma match_at_Some (s : string) (id : ascii) (val : string) :
  match_at is_sigil s = Some (id, val) ->
  is_sigil id = true /\
  contains_char is_line_terminator val = false /\
  exists rest, s = el id val +:+ rest /\
               line_has_sigil is_sigil (val +:+ String "}" rest) = false.
Proof.
  destruct s as [|c [|b r]]; simpl; try discriminate.
  destruct (is_sigil c) eqn:Hc; [|discriminate].
  destruct (chr_eqb b "{") eqn:Hb; [|discriminate].
  destruct (line_has_sigil is_sigil r) eqn:Hl; [discriminate|]. simpl.
  destruct (until_brace r) as [v|] eqn:Hv; [|discriminate].
  intros [= <- <-]. split; [exact Hc|].
  apply chr_eqb_eq in Hb. subst b.
  destruct (until_brace_Some r v Hv) as (rest & -> & Hline).
  split; [exact Hline|].
  exists rest. split; [|exact Hl].
  unfold el. rewrite !app_cons. do 2 f_equal.
  rewrite app_assoc'. now rewrite app_cons, app_empty_l.
Qed.

(** The look-ahead covers the text up to the end of the line. *)
Lemma line_has_sigil_app (a b : string) :
  contains_char is_line_terminator a = false ->
  line_has_sigil is_sigil (a +:+ b) = contains_char is_sigil a || line_has_sigil is_sigil b.
Proof.
  induction a as [|c a IH]; intros Ha; [reflexivity|].
  simpl in Ha. apply orb_false_iff in Ha as [Hc Ha].
  rewrite app_cons. simpl. rewrite Hc.
  destruct (is_sigil c); [reflexivity | now apply IH].
Qed.



Lemma has_match_lits (s : string) : has_match (lits s) = false.
Proof. induction s as [|c r IH]; [reflexivity | exact IH]. Qed.
End WithSigil.

End ScannerFacts.

(** ** The callback of the richer class *)

Module CallbackFacts.
Import Text Scanner TextFacts Rich.

Lemma rich_namespace_tuple (namespace tuple : string) :
  occurs ":" namespace = false ->
  namespace_tuple (namespace +:+ String ":" tuple) = (Some namespace, tuple).
Proof.
  intros Hns. unfold namespace_tuple. now rewrite (break_first_app ":" _ _ Hns).
Qed.

Lemma rich_tokens (key : string) (args : list string) :
  Forall (fun t => occurs "," t = false) (key :: args) ->
  tokens (join "," (key :: args)) = trim key :: map trim args.
Proof.
  intros Hall. unfold tokens. now rewrite (split_join "," key args Hall).
Qed.

Lemma simple_namespace_tuple (namespace tuple : string) :
  namespace <> EmptyString ->
  occurs ":" tuple = false ->
  Simple.namespace_tuple (namespace +:+ String ":" tuple) = (Some namespace, tuple).
Proof.
  intros Hne Ht. unfold Simple.namespace_tuple.
  rewrite (break_last_app ":" _ _ Ht). now destruct namespace.
Qed.

Section Engine.
Context {V : Type} `{JsValue V}.
Variable this : Store V.


End Engine.

End CallbackFacts.

(** ** Properties and paths *)

Module PropsFacts.
Import Props.

Section Assoc.
Context {A : Type}.
Implicit Types (props : list (string * A)) (key : string) (v : A).

Lemma prop_assign_eq props key v : prop (assign props key v) key = Some v.
Proof.
  induction props as [|[k w] rest IH]; simpl.
  - now rewrite String.eqb_refl.
  - destruct (String.eqb k key) eqn:Hk; simpl; rewrite Hk; [reflexivity | exact IH].
Qed.

Lemma prop_assign_ne props key key' v :
  key <> key' -> prop (assign props key v) key' = prop props key'.
Proof.
  intros Hne. induction props as [|[k w] rest IH]; simpl.
  - destruct (String.eqb key key') eqn:Hk; [|reflexivity].
    apply String.eqb_eq in Hk. contradiction.
  - destruct (String.eqb k key) eqn:Hk; simpl.
    + apply String.eqb_eq in Hk. subst k.
      destruct (String.eqb key key') eqn:Hk'; [|reflexivity].
      apply String.eqb_eq in Hk'. contradiction.
    + now rewrite IH.
Qed.



Lemma prop_Some_In props key v : prop props key = Some v -> In (key, v) props.
Proof.
  induction props as [|[k w] rest IH]; simpl; [discriminate|].
  destruct (String.eqb k key) eqn:Hk.
  - apply String.eqb_eq in Hk. subst k. intros [= ->]. now left.
  - intros Hrest. right. now apply IH.
Qed.

Lemma keys_assign props key v :
  forall k, In k (map fst (assign props key v)) -> k = key \/ In k (map fst props).
Proof.
  induction props as [|[k0 w] rest IH]; simpl; intros k.
  - intros [<-|[]]. now left.
  - destruct (String.eqb k0 key) eqn:Hk; simpl.
    + intros [<-|Hin]; [right; now left | right; now right].
    + intros [<-|Hin]; [right; now left|].
      destruct (IH k Hin) as [->|Hr]; [now left | right; now right].
Qed.
End Assoc.

End PropsFacts.

Module PathFacts.
Import Text Props Tree Paths TextFacts PropsFacts.









End PathFacts.

(** ** The leaves of a tree and [flatten] *)

Module FlattenFacts.
Import Text Props Tree Paths TextFacts PropsFacts PathFacts.











End FlattenFacts.

(** ** The engine reads the store through the dictionary alone when no
    function is registered *)

Module ExtFacts.
Import Text Scanner.

Section Ext.
Context {V : Type} `{JsValue V}.
Variables this1 this2 : Store V.
Hypothesis same_dictionary : forall name, dictionary_at this1 name = dictionary_at this2 name.





Hypothesis no_function1 : forall name, function_at this1 name = None.
Hypothesis no_function2 : forall name, function_at this2 name = None.




End Ext.

End ExtFacts.

(** ** A pass of [resolve] as a list of writes *)

Module ResolveFacts.
Import Text Props Tree Paths TextFacts PropsFacts PathFacts FlattenFacts.



















End ResolveFacts.

Module TwiceFacts.
Import Text Props Tree Paths PathFacts FlattenFacts ResolveFacts.




End TwiceFacts.

(** ** What every value of a substitution satisfies *)

Module InvariantFacts.
Import Text Scanner.

Section Invariant.
Context {V : Type} `{JsValue V}.
Variable this : Store V.
Variable P : V -> Prop.
Hypothesis P_undefined : P js_undefined.
Hypothesis P_null : P js_null.
Hypothesis P_boolean : forall b, P (js_boolean b).
Hypothesis P_string : forall s, P (js_string s).
Hypothesis P_dictionary :
  forall name key d, P d -> P (js_get (dictionary_at this name) key d).

Lemma simple_callback_inv (val : string) : P (Simple.callback this val).
Proof.
  unfold Simple.callback. destruct (Simple.namespace_tuple val) as [namespace tuple].
  apply P_dictionary. destruct (tl (Simple.tokens tuple)); auto.
Qed.

Lemma simple_substitute_fuel_inv (fuel : nat) :
  forall leaf depth v,
    P leaf -> Simple.substitute_fuel this fuel leaf depth = Some v -> P v.
Proof.
  induction fuel as [|fuel IH]; intros leaf depth v Hleaf; [discriminate|].
  simpl. destruct (js_typeof_string leaf) as [text|]; [|now intros [= <-]].
  destruct (Simple.cap <? S depth)%nat; [now intros [= <-]|].
  destruct (negb (has_match (Simple.substitutionRegex text))); [now intros [= <-]|].
  apply IH. apply P_string.
Qed.

Lemma simple_substitute_inv (leaf : V) : P leaf -> P (Simple.substitute this leaf).
Proof.
  intros Hleaf. unfold Simple.substitute.
  destruct (Simple.substitute_fuel this (S Simple.cap) leaf 0) as [v|] eqn:Hv; [|exact Hleaf].
  exact (simple_substitute_fuel_inv _ _ _ _ Hleaf Hv).
Qed.

Lemma stored_inv (leaf leaf' : V) : P leaf' -> P (Leaf.stored leaf leaf').
Proof.
  intros Hleaf'. unfold Leaf.stored.
  assert (forall text, P (Leaf.literal text)) as Hliteral.
  { intros text. unfold Leaf.literal.
    repeat match goal with |- P (if ?b then _ else _) => destruct b end; auto. }
  destruct (js_typeof_string leaf') as [text'|]; [|exact Hleaf'].
  destruct (js_typeof_string leaf) as [text|]; [|apply Hliteral].
  destruct (String.eqb text' text); [exact Hleaf' | apply Hliteral].
Qed.

Hypothesis P_function :
  forall name f args, function_at this name = Some f -> Forall P args -> P (f args).
Hypothesis P_store_get : forall key d, P d -> P (store_get this key d).

Lemma rich_callback_inv (template : string) (id : ascii) (val : string)
    (vars : Rich.closure) :
  P (Rich.defaultValue vars) ->
  P (Rich.defaultValue (Rich.callback this template id val vars)) /\
  P (Rich.substitutedValue (Rich.callback this template id val vars)).
Proof.
  intros Hdefault. unfold Rich.callback.
  destruct (Rich.namespace_tuple val) as [namespace tuple].
  destruct (chr_eqb id "@"); simpl.
  - split; [exact Hdefault|].
    destruct (function_at this (property_name namespace)) as [f|] eqn:Hf; [|exact P_undefined].
    apply (P_function _ _ _ Hf). constructor; [now apply P_store_get|].
    apply List.Forall_forall. intros x Hx. apply List.in_map_iff in Hx as (k & <- & _).
    now apply P_store_get.
  - assert (P match Rich.fallbackValue (tl (Rich.tokens tuple)) with
              | Some fb => js_string fb
              | None => Rich.defaultValue vars
              end) as Hnew
        by (destruct (Rich.fallbackValue (tl (Rich.tokens tuple))); auto).
    split; [exact Hnew | now apply P_dictionary].
Qed.

Lemma rich_replace_inv (template : string) (ps : list piece) :
  forall vars,
    P (Rich.defaultValue vars) -> P (Rich.substitutedValue vars) ->
    P (Rich.defaultValue (Rich.replace this template ps vars).2) /\
    P (Rich.substitutedValue (Rich.replace this template ps vars).2).
Proof.
  induction ps as [|[c|id val] ps IH]; intros vars Hd Hs; simpl; [now split| |].
  - specialize (IH vars Hd Hs).
    now destruct (Rich.replace this template ps vars) as [out vars'].
  - destruct (rich_callback_inv template id val vars Hd) as [Hd1 Hs1].
    specialize (IH _ Hd1 Hs1).
    now destruct (Rich.replace this template ps _) as [out vars'].
Qed.

Lemma rich_substitute_fuel_inv (fuel : nat) :
  forall template default depth v,
    P template -> P default ->
    Rich.substitute_fuel this fuel template default depth = Some v -> P v.
Proof.
  induction fuel as [|fuel IH]; intros template default depth v Ht Hd; [discriminate|].
  simpl. destruct (js_typeof_string template) as [text|]; [|now intros [= <-]].
  destruct (Rich.cap <? S depth)%nat; [now intros [= <-]|].
  destruct (negb (has_match (Rich.substitutionRegex text))); [now intros [= <-]|].
  match goal with
  | |- context [Rich.replace this text ?ps ?vars0] =>
      destruct (rich_replace_inv text ps vars0 Hd P_undefined) as [Hd' Hs'];
      destruct (Rich.replace this text ps vars0) as [text' vars]
  end.
  simpl in Hd', Hs'.
  destruct (Rich.substitute_fuel this fuel (js_string text') (Rich.defaultValue vars)
              (S depth)) as [w|] eqn:Hw; [|discriminate].
  intros [= <-].
  destruct (Rich.isFinalSubstitution vars && Rich.not_a_string (Rich.substitutedValue vars));
    [exact Hs'|].
  exact (IH _ _ _ _ (P_string text') Hd' Hw).
Qed.

Lemma rich_substitute_inv (leaf : V) : P leaf -> P (Rich.substitute this leaf).
Proof.
  intros Hleaf. unfold Rich.substitute.
  destruct (Rich.substitute_fuel this (S Rich.cap) leaf js_undefined 0) as [v|] eqn:Hv;
    [|exact Hleaf].
  exact (rich_substitute_fuel_inv _ _ _ _ _ Hleaf P_undefined Hv).
Qed.
End Invariant.

End InvariantFacts.

(** ** Regions: what the operations of lodash keep *)

Module RegionFacts.
Import Text Props Refs Region PropsFacts.

Lemma Forall_assign {A} (P : string * A -> Prop) (props : list (string * A))
    (key : string) (v : A) :
  Forall P props -> (forall k, P (k, v)) -> Forall P (assign props key v).
Proof.
  intros Hall Hv. induction Hall as [|[k w] rest Hk Hrest IH]; simpl.
  - constructor; [apply Hv | constructor].
  - destruct (String.eqb k key); constructor; auto.
Qed.

Section WithRegion.
Variable R : loc -> Prop.

Lemma inside_mono (h h' : heap) (v : val) :
  length h <= length h' -> inside R h v -> inside R h' v.
Proof. intros Hlen. destruct v; simpl; try tauto. intros [HR Hl]. split; [exact HR | lia]. Qed.

Lemma grows_mono (h h' : heap) : length h <= length h' -> grows R h -> grows R h'.
Proof. intros Hlen Hg l Hl. apply Hg. lia. Qed.

Lemma step_refl (h : heap) : closed R h -> step R h h.
Proof. intros Hc. repeat split; [exact Hc | lia]. Qed.

Lemma step_trans (h1 h2 h3 : heap) : step R h1 h2 -> step R h2 h3 -> step R h1 h3.
Proof.
  intros (_ & Hlen12 & Hout12) (Hc & Hlen23 & Hout23).
  repeat split; [exact Hc | lia |].
  intros l Hl. now rewrite (Hout23 l Hl), (Hout12 l Hl).
Qed.

Lemma property_inside (h : heap) (l : loc) (key : string) :
  closed R h -> R l -> inside R h (property h (VRef l) key).
Proof.
  intros Hc Hl. unfold property. simpl.
  destruct (h !! l) as [c|] eqn:Hcell; [|exact I].
  destruct (prop (cell_props c) key) as [v|] eqn:Hprop; [|exact I].
  simpl. pose proof (Hc l c Hl Hcell) as Hall. rewrite List.Forall_forall in Hall.
  exact (Hall (key, v) (prop_Some_In _ _ _ Hprop)).
Qed.

Lemma assign_at_step (h : heap) (l : loc) (key : string) (v : val) :
  closed R h -> R l -> inside R h v -> step R h (assign_at h l key v).
Proof.
  intros Hc Hl Hv. unfold assign_at.
  destruct (h !! l) as [c|] eqn:Hcell; [|now apply step_refl].
  assert (l < length h) as Hlt by (apply lookup_lt_is_Some; eauto).
  set (c' := {| cell_kind := cell_kind c; cell_props := assign (cell_props c) key v |}).
  repeat split.
  - intros l0 c0 Hl0 Hcell0.
    assert (forall w, inside R h w -> inside R (<[l:=c']> h) w) as Hmono.
    { intros w. apply inside_mono. now rewrite length_insert. }
    destruct (decide (l0 = l)) as [->|Hne].
    + rewrite list_lookup_insert_eq in Hcell0 by exact Hlt.
      injection Hcell0 as <-. simpl.
      apply Forall_assign; [|intros k; now apply Hmono].
      eapply Forall_impl; [exact (Hc l c Hl Hcell)|]. intros kv. apply Hmono.
    + rewrite list_lookup_insert_ne in Hcell0 by congruence.
      eapply Forall_impl; [exact (Hc l0 c0 Hl0 Hcell0)|]. intros kv. apply Hmono.
  - now rewrite length_insert.
  - intros l0 Hl0. apply list_lookup_insert_ne. intros ->. contradiction.
Qed.

Lemma alloc_step (h : heap) (k : Tree.kind) :
  closed R h -> grows R h ->
  step R h (h ++ [empty_cell k]) /\ inside R (h ++ [empty_cell k]) (VRef (length h)).
Proof.
  intros Hc Hg.
  assert (length (h ++ [empty_cell k]) = S (length h)) as Hlen
      by (rewrite length_app; simpl; lia).
  split; [repeat split|].
  - intros l c Hl Hcell. destruct (decide (l < length h)) as [Hlt|Hge].
    + rewrite lookup_app_l in Hcell by exact Hlt.
      eapply Forall_impl; [exact (Hc l c Hl Hcell)|].
      intros kv. apply inside_mono. lia.
    + rewrite lookup_app_r in Hcell by lia.
      destruct (l - length h) as [|n]; simpl in Hcell; [|destruct n; discriminate].
      injection Hcell as <-. constructor.
  - lia.
  - intros l Hl. destruct (decide (l < length h)) as [Hlt|Hge].
    + now apply lookup_app_l.
    + exfalso. apply Hl, Hg. lia.
  - simpl. split; [apply Hg; lia | lia].
Qed.

Lemma baseSet_step (path : list string) :
  forall h l v,
    closed R h -> grows R h -> R l -> inside R h v -> step R h (baseSet h l path v).
Proof.
  induction path as [|key rest IH]; intros h l v Hc Hg Hl Hv; [now apply step_refl|].
  destruct rest as [|next rest'].
  - simpl. now apply assign_at_step.
  - cbn [baseSet].
    pose proof (property_inside h l key Hc Hl) as Hprop.
    destruct (property h (VRef l) key) as [| | | | |l'] eqn:Hp.
    6: { destruct Hprop as [Hl' _]. now apply IH. }
    all: unfold alloc;
      destruct (alloc_step h (if Tree.isIndex next then Tree.KArray else Tree.KObject) Hc Hg)
        as [Hstep1 Hnew];
      pose proof Hstep1 as (Hc1 & Hlen1 & _);
      pose proof (assign_at_step _ l key _ Hc1 Hl Hnew) as Hstep2;
      pose proof Hstep2 as (Hc2 & Hlen2 & _);
      eapply step_trans; [exact Hstep1|]; eapply step_trans; [exact Hstep2|];
      apply IH;
        [exact Hc2
        | eapply grows_mono; [|exact Hg]; lia
        | apply Hg; lia
        | eapply inside_mono; [|exact Hv]; lia].
Qed.

(** A loop whose rounds are steps is a step. *)
Lemma fold_step {A} (f : heap -> A -> heap) (l : list A) :
  (forall h a, closed R h -> grows R h -> step R h (f h a)) ->
  forall h, closed R h -> grows R h -> step R h (fold_left f l h).
Proof.
  intros Hf. induction l as [|a l IH]; intros h Hc Hg; [now apply step_refl|].
  simpl. pose proof (Hf h a Hc Hg) as Hstep. pose proof Hstep as (Hc1 & Hlen & _).
  eapply step_trans; [exact Hstep|]. apply IH; [exact Hc1|].
  eapply grows_mono; [exact Hlen | exact Hg].
Qed.

(** [baseMerge] into an object of [R] stores no reference from outside. *)
Lemma baseMerge_step (fuel : nat) :
  forall h object source,
    closed R h -> grows R h -> R object -> step R h (baseMerge fuel h object source).
Proof.
  induction fuel as [|fuel IH]; intros h object source Hc Hg Hobj; [now apply step_refl|].
  simpl. destruct (h !! source) as [sc|]; [|now apply step_refl].
  apply fold_step; [|exact Hc | exact Hg].
  clear h Hc Hg. intros h [key srcValue] Hc Hg.
  destruct srcValue as [| | | | |sl]; try (apply assign_at_step; [exact Hc | exact Hobj | exact I]).
  - destruct (has_property h (VRef object) key);
      [now apply step_refl | apply assign_at_step; [exact Hc | exact Hobj | exact I]].
  - assert (forall k,
               let '(h1, newValue) := alloc h (empty_cell k) in
               step R h
                 (assign_at (baseMerge fuel h1 newValue sl) object key (VRef newValue)))
      as Hfresh.
    { intros k. unfold alloc.
      destruct (alloc_step h k Hc Hg) as [Hstep1 Hnew].
      pose proof Hstep1 as (Hc1 & Hlen1 & _).
      assert (grows R (h ++ [empty_cell k])) as Hg1
          by (eapply grows_mono; [exact Hlen1 | exact Hg]).
      pose proof (IH _ (length h) sl Hc1 Hg1 (proj1 Hnew)) as Hstep2.
      pose proof Hstep2 as (Hc2 & Hlen2 & _).
      eapply step_trans; [exact Hstep1|]. eapply step_trans; [exact Hstep2|].
      apply assign_at_step; [exact Hc2 | exact Hobj|].
      eapply inside_mono; [exact Hlen2 | exact Hnew]. }
    pose proof (property_inside h object key Hc Hobj) as Hprop.
    destruct (property h (VRef object) key) as [| | | | |ol];
      try apply (Hfresh (if is_array h sl then Tree.KArray else Tree.KObject)).
    destruct (is_array h sl && negb (is_array h ol)); [apply (Hfresh Tree.KArray)|].
    pose proof (IH h ol sl Hc Hg (proj1 Hprop)) as Hstep2.
    pose proof Hstep2 as (Hc2 & Hlen2 & _).
    eapply step_trans; [exact Hstep2|].
    apply assign_at_step; [exact Hc2 | exact Hobj|].
    eapply inside_mono; [exact Hlen2 | exact Hprop].
Qed.

Lemma merge_step (h : heap) (object : loc) (source : val) :
  closed R h -> grows R h -> R object -> step R h (merge h object source).
Proof.
  intros Hc Hg Hobj. destruct source; try (now apply step_refl).
  now apply baseMerge_step.
Qed.


(** The leaves of an object of [R] are values inside [R]. *)
Lemma flatten_at_inside (fuel : nat) :
  forall h path v,
    closed R h -> inside R h v ->
    Forall (fun kv : string * val => inside R h kv.2) (flatten_at fuel h path v).
Proof.
  induction fuel as [|fuel IH]; intros h path v Hc Hv;
    [constructor; [exact Hv | constructor]|].
  simpl. destruct v as [| | | | |l]; try (constructor; [exact Hv | constructor]).
  simpl. destruct (h !! l) as [[k [|kv0 props0]]|] eqn:Hcell;
    try (constructor; [exact Hv | constructor]).
  pose proof (Hc l _ (proj1 Hv) Hcell) as Hall. simpl in Hall.
  remember (kv0 :: props0) as props eqn:Hprops. clear Hprops Hcell.
  induction Hall as [|[key w] rest Hw Hrest IHrest]; [constructor|].
  simpl. apply Forall_app. split; [now apply IH | exact IHrest].
Qed.

Lemma flatten_inside (h : heap) (root : loc) :
  closed R h -> R root ->
  Forall (fun kv : string * val => inside R h kv.2) (flatten h root).
Proof.
  intros Hc Hroot. unfold flatten. destruct (h !! root) as [c|] eqn:Hcell; [|constructor].
  pose proof (Hc root c Hroot Hcell) as Hall.
  induction Hall as [|[key w] rest Hw Hrest IHrest]; [constructor|].
  simpl. apply Forall_app. split; [now apply flatten_at_inside | exact IHrest].
Qed.

(** [get] reads objects of [R] only, and gives a value inside [R]. *)
Lemma baseGet_inside (path : list string) :
  forall h object,
    closed R h -> inside R h object -> inside R h (baseGet h object path).
Proof.
  induction path as [|key rest IH]; intros h object Hc Hobj; [exact Hobj|].
  destruct object as [| | | | |l]; try exact I.
  - exact (IH h VUndefined Hc I).
  - exact (IH h VUndefined Hc I).
  - exact (IH h VUndefined Hc I).
  - cbn [baseGet]. apply IH; [exact Hc|].
    apply property_inside; [exact Hc | exact (proj1 Hobj)].
Qed.

Lemma get_inside (h : heap) (object : val) (path : string) (d : val) :
  closed R h -> inside R h object -> inside R h d -> inside R h (get h object path d).
Proof.
  intros Hc Hobj Hd. unfold get.
  pose proof (baseGet_inside (castPath h object path) h object Hc Hobj) as Hres.
  destruct object; try exact Hd;
    destruct (baseGet h _ (castPath h _ path)); try exact Hd; exact Hres.
Qed.

Lemma property_same (h h' : heap) (v : val) (key : string) :
  same_on R h h' -> inside R h v -> property h' v key = property h v key.
Proof.
  intros Hsame Hv. unfold property. destruct v as [| | | | |l]; try reflexivity.
  simpl. now rewrite (Hsame l (proj1 Hv) (proj2 Hv)).
Qed.

Lemma baseGet_same (path : list string) :
  forall h h' object,
    closed R h -> same_on R h h' -> inside R h object ->
    baseGet h' object path = baseGet h object path.
Proof.
  induction path as [|key rest IH]; intros h h' object Hc Hsame Hobj; [reflexivity|].
  destruct object as [| | | | |l]; try reflexivity.
  - exact (IH h h' VUndefined Hc Hsame I).
  - exact (IH h h' VUndefined Hc Hsame I).
  - exact (IH h h' VUndefined Hc Hsame I).
  - cbn [baseGet]. rewrite (property_same h h' _ key Hsame Hobj).
    apply IH; [exact Hc | exact Hsame|].
    apply property_inside; [exact Hc | exact (proj1 Hobj)].
Qed.

Lemma get_same (h h' : heap) (object : val) (path : string) (d : val) :
  closed R h -> same_on R h h' -> inside R h object ->
  get h' object path d = get h object path d.
Proof.
  intros Hc Hsame Hobj. unfold get.
  assert (castPath h' object path = castPath h object path) as ->.
  { unfold castPath, has_property. destruct object as [| | | | |l]; try reflexivity.
    simpl. now rewrite (Hsame l (proj1 Hobj) (proj2 Hobj)). }
  now rewrite (baseGet_same _ h h' object Hc Hsame Hobj).
Qed.
End WithRegion.

End RegionFacts.

(** ** Regions: what the methods of the class keep *)

Module MethodFacts.
Import Text Props Refs Region PropsFacts RegionFacts.

Section WithRegion.
Variable R : loc -> Prop.
Variable c : t.
Hypothesis functions_ok : functions_inside R c.

Lemma roots_mono (h h' : heap) :
  length h <= length h' -> roots_inside R h c -> roots_inside R h' c.
Proof.
  intros Hlen (Hd & Hc & Hdict).
  split; [|split]; (eapply inside_mono; [exact Hlen | assumption]).
Qed.

Lemma get_key_inside (h : heap) (key : option string) (d : val) :
  closed R h -> roots_inside R h c -> inside R h d -> inside R h (get_key h c key d).
Proof.
  intros Hc (Hdata & _) Hd. destruct key as [[|a key]|]; try exact Hdata.
  now apply (get_inside R).
Qed.

Lemma substitute_inside (e : edition) (h : heap) (leaf : val) :
  closed R h -> roots_inside R h c -> inside R h leaf ->
  inside R h (substitute e h c leaf).
Proof.
  intros Hc Hroots Hleaf.
  assert (forall name key d,
             inside R h d ->
             inside R h (js_get (JsValue := heap_value h)
                           (dictionary_at (this h c) name) key d)) as Hdict.
  { intros name key d Hd. simpl. apply get_inside; [exact Hc | | exact Hd].
    apply property_inside; [exact Hc|]. destruct Hroots as (_ & _ & [Hr _]). exact Hr. }
  destruct e; simpl.
  - apply (InvariantFacts.rich_substitute_inv (H := heap_value h) (this h c) (inside R h));
      try exact Hleaf; try exact Hdict; try (intros; exact I).
    + intros name f args Hf Hargs. exact (functions_ok name f h args Hf Hargs).
    + intros key d Hd. exact (get_key_inside h (Some key) d Hc Hroots Hd).
  - apply (InvariantFacts.simple_substitute_inv (H := heap_value h) (this h c) (inside R h));
      try exact Hleaf; try exact Hdict; intros; exact I.
Qed.

Lemma resolve_entry_step (e : edition) (h : heap) (entry : string * val) :
  closed R h -> grows R h -> roots_inside R h c -> inside R h entry.2 ->
  step R h (resolve_entry e c h entry).
Proof.
  intros Hc Hg Hroots Hleaf. destruct entry as [key leaf]. simpl in *.
  apply baseSet_step; [exact Hc | exact Hg | exact (proj1 (proj1 Hroots))|].
  apply (InvariantFacts.stored_inv (H := heap_value h) (inside R h));
    try (intros; exact I).
  now apply substitute_inside.
Qed.

Lemma resolve_entries_step (e : edition) (entries : list (string * val)) :
  forall h,
    closed R h -> grows R h -> roots_inside R h c ->
    Forall (fun kv : string * val => inside R h kv.2) entries ->
    step R h (fold_left (resolve_entry e c) entries h).
Proof.
  induction entries as [|entry rest IH]; intros h Hc Hg Hroots Hall;
    [now apply step_refl|].
  inversion Hall as [|? ? Hentry Hrest]; subst. simpl.
  pose proof (resolve_entry_step e h entry Hc Hg Hroots Hentry) as Hstep.
  pose proof Hstep as (Hc1 & Hlen & _).
  eapply step_trans; [exact Hstep|]. apply IH.
  - exact Hc1.
  - eapply grows_mono; [exact Hlen | exact Hg].
  - eapply roots_mono; [exact Hlen | exact Hroots].
  - eapply Forall_impl; [exact Hrest|]. intros kv. now apply inside_mono.
Qed.

Lemma resolve_step (e : edition) (h : heap) (dictionary : option val) :
  closed R h -> grows R h -> roots_inside R h c ->
  step R h (resolve e h c dictionary).1.
Proof.
  intros Hc Hg Hroots. unfold resolve.
  destruct (truthy (property h (default VUndefined dictionary) "self"));
    [now apply step_refl|].
  simpl.
  pose proof (merge_step R h (Refs.dictionary c) (default VUndefined dictionary) Hc Hg
                (proj1 (proj2 (proj2 Hroots)))) as Hstep.
  pose proof Hstep as (Hc1 & Hlen & _).
  eapply step_trans; [exact Hstep|].
  apply resolve_entries_step.
  - exact Hc1.
  - eapply grows_mono; [exact Hlen | exact Hg].
  - eapply roots_mono; [exact Hlen | exact Hroots].
  - apply flatten_inside; [exact Hc1 | exact (proj1 (proj1 (proj2 Hroots)))].
Qed.


(** [get] after a change of objects outside the region. *)
Lemma get_key_same (h h' : heap) (key : option string) (d : val) :
  closed R h -> roots_inside R h c -> same_on R h h' ->
  get_key h' c key d = get_key h c key d.
Proof.
  intros Hc (Hdata & _) Hsame. destruct key as [[|a key]|]; try reflexivity.
  now apply (get_same R).
Qed.
End WithRegion.





(** A write to an object outside the region leaves the region as it is. *)
Lemma same_on_assign_at (R : loc -> Prop) (h : heap) (l : loc) (key : string) (v : val) :
  ~ R l -> same_on R h (assign_at h l key v).
Proof.
  intros Hl l0 Hl0 _. unfold assign_at. destruct (h !! l); [|reflexivity].
  apply list_lookup_insert_ne. intros ->. contradiction.
Qed.

End MethodFacts.

(** ** More of the text, the scanner and the store *)

Module MoreTextFacts.
Import Text TextFacts.

Lemma chr_eqb_sym (a b : ascii) : chr_eqb a b = chr_eqb b a.
Proof.
  destruct (chr_eqb b a) eqn:Hba.
  - apply chr_eqb_eq in Hba. subst. apply chr_eqb_refl.
  - destruct (chr_eqb a b) eqn:Hab; [|reflexivity].
    apply chr_eqb_eq in Hab. subst. now rewrite chr_eqb_refl in Hba.
Qed.

Lemma colons_to_dots_cons (c : ascii) (s : string) :
  colons_to_dots (String c s)
  = String (if chr_eqb c ":" then "."%char else c) (colons_to_dots s).
Proof. reflexivity. Qed.

Lemma occurs_cons (x c : ascii) (s : string) :
  occurs x (String c s) = chr_eqb x c || occurs x s.
Proof. reflexivity. Qed.

Lemma colons_to_dots_no_colon (s : string) : occurs ":" (colons_to_dots s) = false.
Proof.
  induction s as [|c s IH]; [reflexivity|].
  rewrite colons_to_dots_cons, occurs_cons, IH, orb_false_r.
  destruct (chr_eqb c ":") eqn:Hc; [reflexivity|].
  now rewrite chr_eqb_sym.
Qed.

Lemma colons_to_dots_same (s : string) : occurs ":" s = false -> colons_to_dots s = s.
Proof.
  induction s as [|c s IH]; intros Hs; [reflexivity|].
  rewrite occurs_cons in Hs. apply orb_false_iff in Hs as [Hc Hs].
  rewrite colons_to_dots_cons, (IH Hs). rewrite chr_eqb_sym in Hc. now rewrite Hc.
Qed.

Lemma colons_to_dots_twice (s : string) : colons_to_dots (colons_to_dots s) = colons_to_dots s.
Proof. apply colons_to_dots_same, colons_to_dots_no_colon. Qed.

Lemma split_cons (sep : ascii) (s : string) : exists w ws, split sep s = w :: ws.
Proof.
  destruct s as [|a r]; simpl; [now eexists _, _|].
  destruct (chr_eqb sep a); [now eexists _, _|].
  destruct (split sep r); now eexists _, _.
Qed.


Lemma last_split_app (sep : ascii) (a b : string) :
  List.last (split sep (a +:+ String sep b)) EmptyString = List.last (split sep b) EmptyString.
Proof.
  induction a as [|c a IH].
  - rewrite app_empty_l. simpl. rewrite chr_eqb_refl.
    destruct (split_cons sep b) as (w & ws & ->). reflexivity.
  - rewrite app_cons. simpl.
    destruct (split_cons sep (a +:+ String sep b)) as (w & ws & Hs). rewrite Hs in *.
    destruct (chr_eqb sep c).
    + exact IH.
    + destruct ws as [|w' ws'].
      * exfalso. clear IH.
        assert (length (split sep (a +:+ String sep b)) >= 2) as Hlen.
        { clear Hs. induction a as [|x a IHa].
          - rewrite app_empty_l. simpl. rewrite chr_eqb_refl.
            destruct (split_cons sep b) as (u & us & ->). simpl. lia.
          - rewrite app_cons. simpl.
            destruct (split_cons sep (a +:+ String sep b)) as (u & us & Hu). rewrite Hu in *.
            destruct (chr_eqb sep x); simpl in *; lia. }
        rewrite Hs in Hlen. simpl in Hlen. lia.
      * exact IH.
Qed.

End MoreTextFacts.

Module MoreScannerFacts.
Import Text Scanner TextFacts ScannerFacts MoreTextFacts.

Lemma string_length_app (a b : string) :
  String.length (a +:+ b) = String.length a + String.length b.
Proof. induction a as [|c a IH]; [reflexivity|]. rewrite app_cons. simpl. now rewrite IH. Qed.

Section WithSigil.
Variable is_sigil : ascii -> bool.

(** The pieces of a scan, put together again, are the text. *)
Lemma scan_source_bounded (n : nat) :
  forall s, String.length s <= n -> source (scan is_sigil 0 s) = s.
Proof.
  induction n as [|n IH]; intros s Hn.
  - destruct s; [reflexivity | simpl in Hn; lia].
  - destruct s as [|c r]; [reflexivity|].
    change (scan is_sigil 0 (String c r))
      with (match match_at is_sigil (String c r) with
            | Some (id, val) => Span id val :: scan is_sigil (String.length val + 2) r
            | None => Lit c :: scan is_sigil 0 r
            end).
    destruct (match_at is_sigil (String c r)) as [[id val]|] eqn:Hm.
    + destruct (match_at_Some is_sigil _ _ _ Hm) as (_ & _ & rest & Hs & _).
      unfold el in Hs. rewrite !app_cons in Hs. injection Hs as <- ->.
      change (String "{" ((val +:+ "}") +:+ rest))
        with (String "{" (val +:+ "}") +:+ rest).
      replace (String.length val + 2) with (String.length (String "{" (val +:+ "}")))
        by (simpl; rewrite string_length_app; simpl; lia).
      rewrite scan_skip_app. cbn [source]. rewrite IH.
      * unfold el. now rewrite !app_cons.
      * simpl in Hn. rewrite !string_length_app in Hn. simpl in Hn. lia.
    + cbn [source]. rewrite IH; [reflexivity | simpl in Hn; lia].
Qed.

Lemma scan_source (s : string) : source (scan is_sigil 0 s) = s.
Proof. now apply (scan_source_bounded (String.length s)). Qed.

Lemma until_brace_app (val rest : string) :
  contains_char (fun c => chr_eqb c "}" || is_line_terminator c) val = false ->
  until_brace (val +:+ String "}" rest) = Some val.
Proof.
  induction val as [|c val IH]; intros Hval.
  - rewrite app_empty_l. simpl. reflexivity.
  - simpl in Hval. apply orb_false_iff in Hval as [Hc Hval].
    apply orb_false_iff in Hc as [Hb Ht].
    rewrite app_cons. simpl. rewrite Hb, Ht. now rewrite (IH Hval).
Qed.

(** A text that is one placeholder is one match. *)
Lemma scan_lone (id : ascii) (val : string) :
  is_sigil id = true -> is_sigil "}" = false ->
  contains_char (fun c => is_sigil c || chr_eqb c "}" || is_line_terminator c) val = false ->
  scan is_sigil 0 (el id val) = [Span id val].
Proof.
  intros Hid Hbrace Hval.
  assert (contains_char is_sigil val = false /\
          contains_char (fun c => chr_eqb c "}" || is_line_terminator c) val = false
          /\ contains_char is_line_terminator val = false) as (Hs & Hb & Ht).
  { clear Hid. induction val as [|c val IH]; [now repeat split|].
    simpl in Hval. apply orb_false_iff in Hval as [Hc Hval].
    apply orb_false_iff in Hc as [Hc Hc3]. apply orb_false_iff in Hc as [Hc1 Hc2].
    destruct (IH Hval) as (H1 & H2 & H3). simpl.
    now rewrite Hc1, Hc2, Hc3, H1, H2, H3. }
  unfold el.
  change (scan is_sigil 0 (String id (String "{" (val +:+ "}"))))
    with (match match_at is_sigil (String id (String "{" (val +:+ "}"))) with
          | Some (id', val') =>
              Span id' val' :: scan is_sigil (String.length val' + 2) (String "{" (val +:+ "}"))
          | None => Lit id :: scan is_sigil 0 (String "{" (val +:+ "}"))
          end).
  assert (match_at is_sigil (String id (String "{" (val +:+ "}"))) = Some (id, val)) as ->.
  { cbn [match_at]. rewrite Hid, chr_eqb_refl.
    rewrite (line_has_sigil_app is_sigil val "}" Ht), Hs.
    assert (line_has_sigil is_sigil "}" = false) as ->.
    { cbn [line_has_sigil]. rewrite Hbrace. now destruct (is_line_terminator "}"). }
    cbn [andb orb negb]. now rewrite (until_brace_app val "" Hb). }
  f_equal.
  replace (String.length val + 2) with (String.length (String "{" (val +:+ "}")))
    by (simpl; rewrite string_length_app; simpl; lia).
  rewrite <- (app_empty_r (String "{" (val +:+ "}"))) at 2.
  now rewrite scan_skip_app.
Qed.

(** Two classes of sigils that agree on the characters of a text find the
    same matches in it. *)
Lemma line_has_sigil_agree (is_sigil' : ascii -> bool) (s : string) :
  contains_char (fun c => xorb (is_sigil c) (is_sigil' c)) s = false ->
  line_has_sigil is_sigil s = line_has_sigil is_sigil' s.
Proof.
  induction s as [|c r IH]; intros Hs; [reflexivity|].
  simpl in Hs. apply orb_false_iff in Hs as [Hc Hr]. apply xorb_eq in Hc.
  simpl. rewrite Hc, (IH Hr). reflexivity.
Qed.

Lemma scan_agree (is_sigil' : ascii -> bool) (s : string) :
  contains_char (fun c => xorb (is_sigil c) (is_sigil' c)) s = false ->
  forall skip, scan is_sigil skip s = scan is_sigil' skip s.
Proof.
  induction s as [|c r IH]; intros Hs skip; [reflexivity|].
  simpl in Hs. apply orb_false_iff in Hs as [Hc Hr]. apply xorb_eq in Hc.
  destruct skip as [|k]; [|exact (IH Hr k)].
  change (scan is_sigil 0 (String c r))
    with (match match_at is_sigil (String c r) with
          | Some (id, val) => Span id val :: scan is_sigil (String.length val + 2) r
          | None => Lit c :: scan is_sigil 0 r
          end).
  change (scan is_sigil' 0 (String c r))
    with (match match_at is_sigil' (String c r) with
          | Some (id, val) => Span id val :: scan is_sigil' (String.length val + 2) r
          | None => Lit c :: scan is_sigil' 0 r
          end).
  assert (match_at is_sigil (String c r) = match_at is_sigil' (String c r)) as ->.
  { destruct r as [|b r']; [reflexivity|]. cbn [match_at]. rewrite Hc.
    simpl in Hr. apply orb_false_iff in Hr as [_ Hr'].
    now rewrite (line_has_sigil_agree is_sigil' r' Hr'). }
  destruct (match_at is_sigil' (String c r)) as [[id val]|]; now rewrite IH.
Qed.
End WithSigil.
End MoreScannerFacts.

Module ReadFacts.
Import Text Props Tree Paths TextFacts PropsFacts PathFacts FlattenFacts ResolveFacts
       TwiceFacts MoreTextFacts.










End ReadFacts.

Module FrameFacts.
Import Text Props Tree Paths TextFacts PropsFacts PathFacts FlattenFacts ResolveFacts
       MoreTextFacts ReadFacts.










End FrameFacts.

Module MoreEngineFacts.
Import Text Scanner.
Section Engine.
Context {V : Type} `{JsValue V}.
Variable this : Store V.

Lemma simple_substitute_fuel_text (fuel : nat) :
  forall leaf depth w,
    Simple.substitute_fuel this fuel leaf depth = Some w ->
    w = leaf \/ exists s, w = js_string s.
Proof.
  induction fuel as [|fuel IH]; intros leaf depth w; [discriminate|].
  simpl. destruct (js_typeof_string leaf) as [text|]; [|intros [= <-]; now left].
  destruct (Simple.cap <? S depth)%nat; [intros [= <-]; now left|].
  destruct (negb (has_match (Simple.substitutionRegex text))); [intros [= <-]; now left|].
  intros Hw. destruct (IH _ _ _ Hw) as [->|Hs]; right; [now eexists | exact Hs].
Qed.
End Engine.
End MoreEngineFacts.

Module StaticFacts.
Import Text Props Tree Static TextFacts PropsFacts MoreTextFacts.

Lemma skip_leading_app (pre key : string) :
  contains_char is_A_to_z pre = false ->
  skip_leading (pre +:+ key) = skip_leading key.
Proof.
  induction pre as [|c pre IH]; intros Hpre; [reflexivity|].
  simpl in Hpre. apply orb_false_iff in Hpre as [Hc Hpre].
  rewrite app_cons. cbn [skip_leading]. rewrite Hc. now apply IH.
Qed.

Lemma delim_to_dots_skip (delim a b : string) :
  delim_to_dots delim (String.length a) (a +:+ b) = delim_to_dots delim 0 b.
Proof.
  induction a as [|c a IH]; [reflexivity|].
  rewrite app_cons. exact IH.
Qed.

Lemma starts_with_app (p s : string) : starts_with p (p +:+ s) = true.
Proof.
  induction p as [|a p IH]; [reflexivity|].
  rewrite app_cons. cbn [starts_with]. now rewrite chr_eqb_refl, IH.
Qed.

(** A text without the first character of the delimiter stays as it is, up
    to the delimiter that follows it. *)
Lemma delim_to_dots_part (a : ascii) (d' part rest : string) :
  occurs a part = false ->
  (rest = EmptyString \/ exists rest', rest = String a rest') ->
  delim_to_dots (String a d') 0 (part +:+ rest)
  = part +:+ delim_to_dots (String a d') 0 rest.
Proof.
  intros Hpart Hrest. induction part as [|c part IH]; [reflexivity|].
  rewrite occurs_cons in Hpart. apply orb_false_iff in Hpart as [Hc Hpart].
  rewrite !app_cons. cbn [delim_to_dots starts_with]. rewrite Hc. cbn [andb].
  now rewrite (IH Hpart).
Qed.

Lemma delim_to_dots_join (a : ascii) (d' : string) (parts : list string) :
  Forall (fun part => occurs a part = false) parts ->
  delim_to_dots (String a d') 0 (join (String a d') parts) = join "." parts.
Proof.
  induction parts as [|part [|next rest] IH]; intros Hall; [reflexivity| |].
  - cbn [join]. inversion Hall as [|? ? Hpart _]; subst.
    rewrite <- (app_empty_r part) at 1.
    rewrite (delim_to_dots_part a d' part "" Hpart); [|now left].
    now rewrite app_empty_r.
  - inversion Hall as [|? ? Hpart Hrest]; subst.
    change (join (String a d') (part :: next :: rest))
      with (part +:+ String a d' +:+ join (String a d') (next :: rest)).
    change (join "." (part :: next :: rest))
      with (part +:+ "." +:+ join "." (next :: rest)).
    rewrite (delim_to_dots_part a d' part _ Hpart)
      by (right; rewrite app_cons; now eexists).
    f_equal. rewrite app_cons.
    cbn [delim_to_dots].
    change (String a (d' +:+ join (String a d') (next :: rest)))
      with (String a d' +:+ join (String a d') (next :: rest)).
    rewrite starts_with_app. rewrite delim_to_dots_skip.
    rewrite (IH Hrest). reflexivity.
Qed.

Lemma drop_two_app {A} (l : list A) (x : A) :
  (2 <= length l)%nat -> drop 2 (l ++ [x]) = (drop 2 l ++ [x])%list.
Proof. intros Hl. destruct l as [|a [|b l]]; simpl in *; try lia. reflexivity. Qed.

End StaticFacts.

(** ** What [set] and [merge] do to the Definition Tree *)

Module DefinitionFacts.
Import Text Props Tree Paths TextFacts PropsFacts FrameFacts.




End DefinitionFacts.
(** ** The classes on the configuration of their test suite *)

(** What the suite expects of [config.get] on a new instance of the richer
    class. *)
Example suite_richer :
  Samples.read_suite (Config.new Richer Samples.suite Samples.no_functions)
  = [Tree.VString "dev"; Tree.VString "gozio-config"; Tree.VString "gozio-config";
     Tree.VString "gozio-config"; Tree.VUndefined; Tree.VUndefined;
     Tree.VString "another-dev"; Tree.VString "gozio-config";
     Tree.VString "tricky-gozio-config-gozio-config-gozio-config";
     Tree.VString "location-resolver-dev";
     Tree.VString "https://gozio-dev.auth0.com/api/v2/";
     Tree.VUndefined; Tree.VString "undefined"; Tree.VBoolean true; Tree.VString "true";
     Tree.VString "location-resolver-dev"; Tree.VString "rich's world";
     Tree.VString "'hello'"; Tree.VString (Text.quoted "hello");
     Tree.array [Tree.VString "a"; Tree.VString "b"; Tree.VString "c"];
     Tree.VUndefined].
Proof. vm_compute. reflexivity. Qed.

(** After [config.resolve({ sm: secrets, env: process.env })]. *)
Example suite_richer_resolved :
  Samples.read_suite
    (Config.after
       (Config.resolve Richer (Config.new Richer Samples.suite Samples.no_functions)
          Samples.secrets))
  = [Tree.VString "test"; Tree.VString "gozio-config"; Tree.VString "gozio-config";
     Tree.VString "gozio-config"; Tree.VString "foobar"; Tree.VString "gozio-config";
     Tree.VString "another-test"; Tree.VString "gozio-config";
     Tree.VString "tricky-gozio-config-gozio-config-gozio-config";
     Tree.VString "foobar";
     Tree.VString "https://gozio-dev.auth0.com/api/v2/";
     Tree.VUndefined; Tree.VString "undefined"; Tree.VBoolean true; Tree.VString "true";
     Tree.VString "location-resolver-dev"; Tree.VString "rich's world";
     Tree.VString "'hello'"; Tree.VString (Text.quoted "hello");
     Tree.array [Tree.VString "a"; Tree.VString "b"; Tree.VString "c"];
     Tree.VUndefined].
Proof. vm_compute. reflexivity. Qed.

(** The earlier class splits a placeholder at its last colon, passes no
    default on and stops after five levels: the two leaves whose default is
    a placeholder or holds a colon resolve to [undefined]. *)
Example suite_earlier :
  let c := Config.new Earlier Samples.suite Samples.no_functions in
  Config.get c (Some "app.dynamicDefault") Tree.VUndefined = Tree.VUndefined /\
  Config.get c (Some "app.dynamicHttpDefault") Tree.VUndefined = Tree.VUndefined /\
  forall key,
    In key Samples.suite_keys ->
    key <> "app.dynamicDefault" -> key <> "app.dynamicHttpDefault" ->
    Config.get c (Some key) Tree.VUndefined
    = Config.get (Config.new Richer Samples.suite Samples.no_functions) (Some key)
        Tree.VUndefined.
Proof.
  split; [vm_compute; reflexivity|]. split; [vm_compute; reflexivity|].
  intros key Hin Hd Hh. unfold Samples.suite_keys in Hin. simpl in Hin.
  repeat (destruct Hin as [<-|Hin]; [try (vm_compute; reflexivity); contradiction|]).
  destruct Hin.
Qed.

(** The heap of objects and the trees give the same answers. *)
Example suite_on_the_heap :
  forall e,
    RefSamples.read_suite e false
    = Samples.read_suite (Config.new e Samples.suite Samples.no_functions) /\
    RefSamples.read_suite e true
    = Samples.read_suite
        (Config.after
           (Config.resolve e (Config.new e Samples.suite Samples.no_functions)
              Samples.secrets)).
Proof. intros []; vm_compute; split; reflexivity. Qed.

(** ** The claims *)

(** C5. The substitution routine returns on every input, circular references
    included: the depth counter, capped at 10 in the richer class and at 5 in
    the earlier one, bounds the recursion, so that fuel beyond [cap - depth]
    always gives a result; and a call that finds the counter at the cap
    returns its template as it is, the text substituted so far, without an
    error. *)
Theorem substitute_terminates {V : Type} `{JsValue V} (this : Store V)
    (template default : V) (depth fuel : nat) :
  (Rich.cap = 10%nat /\ Simple.cap = 5%nat) /\
  (Rich.cap - depth < fuel ->
     exists v, Rich.substitute_fuel this fuel template default depth = Some v) /\
  (Simple.cap - depth < fuel ->
     exists v, Simple.substitute_fuel this fuel template depth = Some v) /\
  (Rich.cap <= depth ->
     Rich.substitute_fuel this (S fuel) template default depth = Some template) /\
  (Simple.cap <= depth ->
     Simple.substitute_fuel this (S fuel) template depth = Some template).
Proof.
  split; [split; reflexivity|].
  split; [intros Hf; apply (RichFacts.rich_substitute_fuel_enough this fuel); exact Hf|].
  split; [intros Hf; apply (SimpleFacts.simple_substitute_fuel_enough this fuel); exact Hf|].
  split; [apply RichFacts.rich_substitute_fuel_at_cap
         | apply SimpleFacts.simple_substitute_fuel_at_cap].
Qed.

(** The leaf [${self:a}] of [{ a: '${self:a}' }], from depth 0 with fuel 11,
    and from depth 10. *)
Lemma substitute_terminates_witness :
  (exists v,
    Rich.substitute_fuel (Config.this (Samples.circular Richer)) 11
      (Tree.VString "${self:a}") Tree.VUndefined 0 = Some v) /\
  Rich.substitute_fuel (Config.this (Samples.circular Richer)) 1
    (Tree.VString "${self:a}") Tree.VUndefined 10 = Some (Tree.VString "${self:a}").
Proof.
  split.
  - apply (substitute_terminates (Config.this (Samples.circular Richer))
             (Tree.VString "${self:a}") Tree.VUndefined 0 11).
    vm_compute. lia.
  - apply (substitute_terminates (Config.this (Samples.circular Richer))
             (Tree.VString "${self:a}") Tree.VUndefined 10 0).
    vm_compute. lia.
Defined.

(** A circular reference resolves to the text the last allowed pass left. *)
Example circular_reference_richer :
  Config.get (Samples.circular Richer) (Some "a") Tree.VUndefined = Tree.VString "${self:a}".
Proof. vm_compute. reflexivity. Qed.

Example circular_reference_earlier :
  Config.get (Samples.circular Earlier) (Some "a") Tree.VUndefined = Tree.VString "${self:a}".
Proof. vm_compute. reflexivity. Qed.




(** C10. [get] with the empty string as the key is [get] without a key: the
    whole of [#data], whatever the default value; on the heap, the object
    [#data] itself. *)
Theorem get_empty_key (c : Config.t) (defaultValue defaultValue' : Tree.value)
    (h : Refs.heap) (r : Refs.t) (d d' : Refs.val) :
  (Config.get c (Some "") defaultValue = Config.get c None defaultValue' /\
   Config.get c (Some "") defaultValue = Tree.VObj Tree.KObject (Config.data c)) /\
  (Refs.get_key h r (Some "") d = Refs.get_key h r None d' /\
   Refs.get_key h r (Some "") d = Refs.VRef (Refs.data r)).
Proof. repeat split. Qed.



(** The leaf [@{eq:${self:app.name}, gozio-config}] of the test suite. *)
Example function_form_resolved :
  Config.get Samples.with_function (Some "app.bool") Tree.VUndefined = Tree.VBoolean true.
Proof. vm_compute. reflexivity. Qed.




(** The default value of one substitution serves the next: the test suite's
    [dynamicDefault], in short. *)
Example default_is_carried :
  let c := Config.new Richer
             (Tree.object [("secret", Tree.VString "${sm:key}");
                           ("dynamic", Tree.VString "${self:secret, fallback}")])
             Samples.no_functions in
  Config.get c (Some "dynamic") Tree.VUndefined = Tree.VString "fallback".
Proof. vm_compute. reflexivity. Qed.

(** C2, as the classes have it.  What [resolve] stores for a leaf, given the
    result of the substitution: the result itself when it is not a string or
    is the string of the leaf; otherwise [undefined], [null], [true] or
    [false] for the four tokens, and for any other string the string without
    its first and last character when both are quote characters (single or
    double, not necessarily the same) and no line terminator lies between
    them, and the string as it is in every other case. *)
Theorem stored_coercion {V : Type} `{JsValue V} (leaf leaf' : V) :
  (js_typeof_string leaf' = None -> Leaf.stored leaf leaf' = leaf') /\
  (forall text, js_typeof_string leaf' = Some text ->
                js_typeof_string leaf = Some text ->
                Leaf.stored leaf leaf' = leaf') /\
  (forall text, js_typeof_string leaf' = Some text ->
                js_typeof_string leaf <> Some text ->
                Leaf.stored leaf leaf' =
                  if String.eqb text "undefined" then js_undefined
                  else if String.eqb text "null" then js_null
                  else if String.eqb text "true" then js_boolean true
                  else if String.eqb text "false" then js_boolean false
                  else js_string (Text.strip_quotes text)) /\
  (forall q1 q2 body,
      Text.is_quote q1 = true -> Text.is_quote q2 = true ->
      Text.contains_char Text.is_line_terminator body = false ->
      Text.strip_quotes (String q1 (body +:+ String q2 "")) = body) /\
  (forall s,
      (forall q1 q2 body,
          s = String q1 (body +:+ String q2 "") ->
          Text.is_quote q1 && Text.is_quote q2
            && negb (Text.contains_char Text.is_line_terminator body) = false) ->
      Text.strip_quotes s = s).
Proof.
  split; [|split; [|split; [|split]]].
  - intros Hleaf'. unfold Leaf.stored. now rewrite Hleaf'.
  - intros text Hleaf' Hleaf. unfold Leaf.stored. rewrite Hleaf', Hleaf.
    now rewrite String.eqb_refl.
  - intros text Hleaf' Hleaf. unfold Leaf.stored. rewrite Hleaf'.
    destruct (js_typeof_string leaf) as [text0|]; [|reflexivity].
    destruct (String.eqb text text0) eqn:Heq; [|reflexivity].
    apply String.eqb_eq in Heq. congruence.
  - apply TextFacts.strip_quotes_between.
  - apply TextFacts.strip_quotes_other.
Qed.

(** The leaf [${self:app.nothing, 'true'}], whose substitution gives the
    text ['true'] in quotes. *)
Lemma stored_coercion_witness :
  Leaf.stored (Tree.VString "${self:app.nothing, 'true'}") (Tree.VString "'true'")
    = Tree.VString "true".
Proof.
  destruct (stored_coercion (Tree.VString "${self:app.nothing, 'true'}")
              (Tree.VString "'true'")) as (_ & _ & Hchanged & _).
  rewrite (Hchanged "'true'"); [reflexivity | reflexivity | discriminate].
Defined.

(** C2, as stated, fails: the text [hello] between a single quote and a
    double quote has no layer of matching quotes to strip; the class strips
    both. *)
Lemma mismatched_quotes_are_stripped :
  let text := "'hello" +:+ String Text.dquote "" in
  let leaf := Tree.VString ("${self:app.nothing, " +:+ text +:+ "}") in
  let c := Samples.app_named Richer in
  Config.substitute Richer c leaf = Tree.VString text /\
  Claimed.strip_matching_quotes text = text /\
  Leaf.stored leaf (Config.substitute Richer c leaf) = Tree.VString "hello" /\
  Leaf.stored leaf (Config.substitute Richer c leaf)
    <> Tree.VString (Claimed.strip_matching_quotes text).
Proof. vm_compute. repeat split; discriminate. Qed.




(** The recursion substitutes the siblings one per pass. *)
Example siblings_resolved :
  Config.get
    (Config.new Richer
       (Tree.object [("app", Tree.object [("a", Tree.VString "a"); ("b", Tree.VString "b");
                                           ("ref", Tree.VString "${self:app.a}-${self:app.b}")])])
       Samples.no_functions)
    (Some "app.ref") Tree.VUndefined = Tree.VString "a-b".
Proof. vm_compute. reflexivity. Qed.




(** C4 fails on the classes.  [resolve] tests the value under [self] for
    truthiness, not the presence of the key: a dictionary whose [self] is
    [null] is accepted, nothing is thrown, the merge replaces the binding of
    [self] to the Definition Tree, and the leaf [${self:app.name}], resolved
    before, becomes [undefined]. *)
Theorem falsy_self_is_accepted :
  forall e,
    let c := Samples.with_reference e in
    let r := Config.resolve e c [("self", Tree.VNull)] in
    Config.get c (Some "ref") Tree.VUndefined = Tree.VString "gozio-config" /\
    Config.thrown r = None /\
    Config.dictionary (Config.after r) = [("self", Config.Held Tree.VNull)] /\
    Config.get (Config.after r) (Some "ref") Tree.VUndefined = Tree.VUndefined.
Proof. intros [|]; vm_compute; repeat split. Qed.

(** What the check does reject: a dictionary whose [self] is truthy; the
    instance is left as it was. *)
Lemma truthy_self_is_rejected (e : edition) (c : Config.t) (dictionary : Tree.properties) :
  Tree.truthy (Tree.property (Tree.VObj Tree.KObject dictionary) "self") = true ->
  Config.resolve e c dictionary
  = {| Config.after := c; Config.thrown := Some Config.reserved_key |}.
Proof. intros Hself. unfold Config.resolve. now rewrite Hself. Qed.

(** And what it lets through: every dictionary whose [self] is falsy. *)
Lemma falsy_self_passes (e : edition) (c : Config.t) (dictionary : Tree.properties) :
  Tree.truthy (Tree.property (Tree.VObj Tree.KObject dictionary) "self") = false ->
  Config.thrown (Config.resolve e c dictionary) = None.
Proof. intros Hself. unfold Config.resolve. now rewrite Hself. Qed.

Example self_blah_is_rejected :
  Config.thrown (Config.resolve Richer (Samples.with_reference Richer)
                   [("self", Tree.VString "blah")])
  = Some ("Cannot use reserved key " +:+ Text.quoted "self").
Proof. reflexivity. Qed.




(** Right after [set] the Resolved Tree holds a copy, as the test suite has
    it; after [merge] the change is never seen. *)
Example set_then_get :
  Refs.get_key (RefSamples.mutate RefSamples.after_set)
    RefSamples.instance (Some "app.object.b") Refs.VUndefined = Refs.VUndefined.
Proof. vm_compute. reflexivity. Qed.

Example merge_copies :
  Refs.get_key (RefSamples.touch (RefSamples.mutate RefSamples.after_merge))
    RefSamples.instance (Some "app.object.b") Refs.VUndefined = Refs.VUndefined.
Proof. vm_compute. reflexivity. Qed.

(** * Further properties of the classes *)

(** ** [get] and [set] *)

(** X1. A key in colon notation is the key in dot notation: [get] and [set]
    replace every colon by a dot before they look at the key, so both
    spellings read and write the same path, on trees and on the heap. *)
Theorem colon_notation (e : edition) (c : Config.t) (h : Refs.heap) (r : Refs.t)
    (key : string) :
  (forall d, Config.get c (Some key) d = Config.get c (Some (Text.colons_to_dots key)) d) /\
  (forall v, Config.set e c key v = Config.set e c (Text.colons_to_dots key) v) /\
  (forall d, Refs.get_key h r (Some key) d
             = Refs.get_key h r (Some (Text.colons_to_dots key)) d) /\
  (forall v, Refs.set_key e h r key v = Refs.set_key e h r (Text.colons_to_dots key) v).
Proof.
  repeat split; intros.
  - unfold Config.get. destruct key as [|a key]; [reflexivity|].
    destruct (Text.colons_to_dots (String a key)) eqn:Hk; [discriminate|].
    rewrite <- Hk. now rewrite MoreTextFacts.colons_to_dots_twice.
  - unfold Config.set. now rewrite MoreTextFacts.colons_to_dots_twice.
  - unfold Refs.get_key. destruct key as [|a key]; [reflexivity|].
    destruct (Text.colons_to_dots (String a key)) eqn:Hk; [discriminate|].
    rewrite <- Hk. now rewrite MoreTextFacts.colons_to_dots_twice.
  - unfold Refs.set_key. now rewrite MoreTextFacts.colons_to_dots_twice.
Qed.

Example colon_notation_of_the_suite :
  Config.get (Config.new Richer Samples.suite Samples.no_functions)
    (Some "lib:utilities:aws:lambda:locationResolver") Tree.VUndefined
  = Config.get (Config.new Richer Samples.suite Samples.no_functions)
      (Some "lib.utilities.aws.lambda.locationResolver") Tree.VUndefined.
Proof. vm_compute. reflexivity. Qed.

(** X2. The default value of [get] stands in for [undefined] and for nothing
    else: [get(key, d)] is [d] when [get(key)] is [undefined], and [get(key)]
    otherwise, so a key that holds [null], [false], [0] or the empty string
    gives that value and not the default. *)
Theorem default_only_for_undefined (c : Config.t) (key : string) (d : Tree.value) :
  Config.get c (Some key) d
  = match Config.get c (Some key) Tree.VUndefined with
    | Tree.VUndefined => d
    | v => v
    end.
Proof.
  unfold Config.get. destruct key as [|a key]; [reflexivity|].
  unfold Tree.get.
  now destruct (Tree.baseGet _ _).
Qed.

Example null_is_not_defaulted :
  let c := Config.new Richer (Tree.object [("a", Tree.VNull)]) Samples.no_functions in
  Config.get c (Some "a") (Tree.VString "fallback") = Tree.VNull /\
  Config.get c (Some "b") (Tree.VString "fallback") = Tree.VString "fallback".
Proof. vm_compute. split; reflexivity. Qed.

(** ** [resolve], [set] and [merge] on trees

    Trees are values in these statements: the Resolved Tree shares no object
    with the Definition Tree or the dictionary. *)











Example shorter_array_is_not_shorter :
  Config.get (Config.set Richer
                (Config.new Richer
                   (Tree.object [("app", Tree.object
                      [("arr", Tree.array [Tree.VString "a"; Tree.VString "b";
                                           Tree.VString "c"])])])
                   Samples.no_functions)
                "app.arr" (Tree.array [Tree.VString "x"]))
    (Some "app.arr") Tree.VUndefined
  = Tree.array [Tree.VString "x"; Tree.VString "b"; Tree.VString "c"].
Proof. vm_compute. reflexivity. Qed.





(** ** [resolve] on the heap *)

(** X10. [resolve] copies the dictionary it is given.  When the objects of
    the instance refer to no object of the caller (the set [F]) before the
    call, they refer to none after it, whatever dictionary the call
    received; the call changes no object of the caller; and no later change
    of objects of the caller, nor any object made later, changes what [get]
    returns. *)
Theorem dictionary_is_copied (e : edition) (h : Refs.heap) (c : Refs.t)
    (dictionary : option Refs.val) (F : Refs.loc -> Prop) :
  (forall l, F l -> l < length h) ->
  Region.closed (fun l => ~ F l) h ->
  Region.roots_inside (fun l => ~ F l) h c ->
  Region.functions_inside (fun l => ~ F l) c ->
  let h1 := (Refs.resolve e h c dictionary).1 in
  Region.closed (fun l => ~ F l) h1 /\
  (forall l, F l -> h1 !! l = h !! l) /\
  forall h2,
    Region.same_on (fun l => ~ F l) h1 h2 ->
    forall key dv, Refs.get_key h2 c key dv = Refs.get_key h1 c key dv.
Proof.
  intros Hbound Hclosed Hroots Hfun h1.
  assert (Region.grows (fun l => ~ F l) h) as Hgrows.
  { intros l Hl HF. specialize (Hbound l HF). lia. }
  pose proof (MethodFacts.resolve_step (fun l => ~ F l) c Hfun e h dictionary
                Hclosed Hgrows Hroots) as (Hc1 & Hlen & Hout).
  split; [exact Hc1|]. split.
  - intros l HF. apply Hout. tauto.
  - intros h2 Hsame key dv.
    apply (MethodFacts.get_key_same (fun l => ~ F l) c _ h2 key dv Hc1); [|exact Hsame].
    eapply MethodFacts.roots_mono; [exact Hlen | exact Hroots].
Qed.

(** [config.resolve(obj)] with the object [{ a: 'a' }] of the caller, and
    then [obj.b = 'b']. *)
Lemma dictionary_is_copied_witness :
  let h1 := (Refs.resolve Richer RefSamples.start RefSamples.instance
               (Some (Refs.VRef RefSamples.obj))).1 in
  h1 !! RefSamples.obj = RefSamples.start !! RefSamples.obj /\
  Refs.get_key (RefSamples.mutate h1) RefSamples.instance None Refs.VUndefined
  = Refs.get_key h1 RefSamples.instance None Refs.VUndefined.
Proof.
  intros h1.
  destruct (dictionary_is_copied Richer RefSamples.start RefSamples.instance
              (Some (Refs.VRef RefSamples.obj)) RefSamples.foreign)
    as (_ & Hsame & Hget).
  - intros l ->. vm_compute. lia.
  - intros l cell Hl Hcell.
    destruct l as [|[|[|[|l]]]]; vm_compute in Hcell; try discriminate;
      injection Hcell as <-; repeat constructor; try (vm_compute; lia).
  - repeat split; try (intros [=]); vm_compute; lia.
  - intros name f h args Hf. discriminate.
  - split; [apply Hsame; reflexivity|].
    apply Hget. apply MethodFacts.same_on_assign_at. intros Hno. apply Hno. reflexivity.
Defined.

(** ** The substitution engine *)

(** X11. A value without a sigil is stored as it is.  A leaf that is not a
    string, and a string leaf that holds neither [$] nor [@], goes through
    [#substitute] and the coercion of [resolve] unchanged in both classes:
    the text [true] of the Definition Tree stays a string, only texts that a
    substitution produced are coerced. *)
Theorem plain_value_is_stored_as_is {V : Type} `{JsValue V} (this : Store V) (leaf : V) :
  (forall text, js_typeof_string leaf = Some text ->
                Text.contains_char Rich.is_sigil text = false) ->
  Leaf.stored leaf (Rich.substitute this leaf) = leaf /\
  Leaf.stored leaf (Simple.substitute this leaf) = leaf.
Proof.
  intros Hplain.
  assert (Leaf.stored leaf leaf = leaf) as Hstored.
  { unfold Leaf.stored. destruct (js_typeof_string leaf); [|reflexivity].
    now rewrite String.eqb_refl. }
  destruct (js_typeof_string leaf) as [text|] eqn:Hleaf.
  - specialize (Hplain text eq_refl).
    rewrite (RichFacts.rich_substitute_no_match this leaf text Hleaf).
    + rewrite (SimpleFacts.simple_substitute_no_match this leaf text Hleaf); [now split|].
      unfold Simple.substitutionRegex.
      rewrite <- (MoreScannerFacts.scan_agree Rich.is_sigil Simple.is_sigil).
      * rewrite (ScannerFacts.scan_no_sigil _ _ Hplain). apply ScannerFacts.has_match_lits.
      * clear -Hplain. induction text as [|c r IH]; [reflexivity|].
        simpl in Hplain. apply orb_false_iff in Hplain as [Hc Hr].
        simpl. rewrite (IH Hr), orb_false_r.
        unfold Rich.is_sigil, Simple.is_sigil in *.
        apply orb_false_iff in Hc as [-> ->]. reflexivity.
    + unfold Rich.substitutionRegex. rewrite (ScannerFacts.scan_no_sigil _ _ Hplain).
      apply ScannerFacts.has_match_lits.
  - rewrite (RichFacts.rich_substitute_not_string this leaf Hleaf).
    assert (Simple.substitute this leaf = leaf) as ->
        by (unfold Simple.substitute; simpl; now rewrite Hleaf).
    now split.
Qed.

(** The leaf ['true'], a text, and the leaf [8080], a number. *)
Lemma plain_value_is_stored_as_is_witness :
  let this := Config.this (Samples.app_named Richer) in
  Leaf.stored (Tree.VString "true") (Rich.substitute this (Tree.VString "true"))
    = Tree.VString "true" /\
  Leaf.stored (Tree.VNumber 8080) (Rich.substitute this (Tree.VNumber 8080))
    = Tree.VNumber 8080.
Proof.
  intros this. split.
  - apply (plain_value_is_stored_as_is this (Tree.VString "true")).
    intros text [= <-]. reflexivity.
  - apply (plain_value_is_stored_as_is this (Tree.VNumber 8080)).
    intros text [=].
Defined.

(** X12. The richer class keeps the type of a lone placeholder.  When the
    leaf is exactly [${namespace:key}] (no default, one line, no further
    sigil or brace) and the lookup of the trimmed key in
    [dictionary[namespace]] gives a value that is not a string (a number, a
    boolean, [null], [undefined], an object), [#substitute] returns that
    value itself, not its text, and [resolve] stores it. *)
Theorem lone_placeholder_keeps_type {V : Type} `{JsValue V} (this : Store V)
    (leaf : V) (namespace key : string) (v : V) :
  js_typeof_string leaf = Some (Scanner.el "$" (namespace +:+ ":" +:+ key)) ->
  Text.occurs ":" namespace = false ->
  Text.occurs "," key = false ->
  Text.contains_char
    (fun c => Rich.is_sigil c || Text.chr_eqb c "}" || Text.is_line_terminator c)
    (namespace +:+ ":" +:+ key) = false ->
  js_get (dictionary_at this namespace) (Text.trim key) js_undefined = v ->
  js_typeof_string v = None ->
  Rich.substitute this leaf = v /\ Leaf.stored leaf (Rich.substitute this leaf) = v.
Proof.
  intros Hleaf Hns Hkey Hval Hget Hv.
  assert (Rich.substitute this leaf = v) as Hsub.
  { unfold Rich.substitute.
    set (val := namespace +:+ ":" +:+ key) in *.
    assert (Rich.substitutionRegex (Scanner.el "$" val) = [Scanner.Span "$" val]) as Hscan
        by (apply MoreScannerFacts.scan_lone; [reflexivity | reflexivity | exact Hval]).
    remember Rich.cap as fuel eqn:Hfuel.
    cbn [Rich.substitute_fuel]. rewrite Hleaf. rewrite Hscan.
    assert ((Rich.cap <? 1)%nat = false) as -> by reflexivity.
    cbn [Scanner.has_match existsb Scanner.is_span negb orb Rich.replace].
    set (vars := Rich.callback this (Scanner.el "$" val) "$" val _).
    assert (Rich.isFinalSubstitution vars = true /\ Rich.substitutedValue vars = v)
      as [Hfinal Hvalue].
    { unfold vars, Rich.callback, val.
      change (namespace +:+ ":" +:+ key) with (namespace +:+ String ":" key).
      rewrite (CallbackFacts.rich_namespace_tuple _ _ Hns).
      pose proof (CallbackFacts.rich_tokens key [] (Forall_cons_2 _ _ _ Hkey (Forall_nil_2 _)))
        as Htokens.
      cbn [Text.join map] in Htokens. rewrite Htokens. cbn [hd tl].
      assert (Text.chr_eqb "$" "@" = false) as -> by reflexivity.
      cbn [Rich.isFinalSubstitution Rich.substitutedValue Rich.fallbackValue List.find
           Rich.defaultValue property_name].
      split; [apply String.eqb_refl | exact Hget]. }
    destruct (RichFacts.rich_substitute_fuel_enough this fuel
                (js_string (js_ToString (Rich.substitutedValue vars) +:+ ""))
                (Rich.defaultValue vars) 1) as [w Hw]; [subst fuel; vm_compute; lia|].
    rewrite Hw. cbn [default]. rewrite Hfinal, Hvalue.
    unfold Rich.not_a_string. now rewrite Hv. }
  split; [exact Hsub|]. rewrite Hsub. unfold Leaf.stored. now rewrite Hv.
Qed.

(** The leaf [${sm:port}] with [sm.port] the number 8080. *)
Lemma lone_placeholder_keeps_type_witness :
  Rich.substitute (Config.this Samples.with_port) (Tree.VString "${sm:port}")
  = Tree.VNumber 8080.
Proof.
  apply (lone_placeholder_keeps_type (Config.this Samples.with_port)
           (Tree.VString "${sm:port}") "sm" "port" (Tree.VNumber 8080));
    vm_compute; reflexivity.
Defined.

(** In a text the same value is written out; the earlier class writes it out
    in both places. *)
Example placeholder_in_a_text :
  Rich.substitute (Config.this Samples.with_port) (Tree.VString "port ${sm:port}")
  = Tree.VString "port 8080" /\
  Leaf.stored (Tree.VString "${sm:port}")
    (Simple.substitute (Config.this Samples.with_port) (Tree.VString "${sm:port}"))
  = Tree.VString "8080".
Proof. vm_compute. split; reflexivity. Qed.

(** X13. The earlier class gives texts only.  What [resolve] stores for a
    leaf in the earlier class is the leaf itself, [undefined], [null], a
    boolean or a string: a placeholder never resolves to a number or to an
    object. *)
Theorem earlier_gives_text {V : Type} `{JsValue V} (this : Store V) (leaf : V) :
  let stored := Leaf.stored leaf (Simple.substitute this leaf) in
  stored = leaf \/ stored = js_undefined \/ stored = js_null \/
  (exists b, stored = js_boolean b) \/ (exists s, stored = js_string s).
Proof.
  intros stored. unfold stored, Simple.substitute.
  destruct (SimpleFacts.simple_substitute_fuel_enough this (S Simple.cap) leaf 0) as [w Hw];
    [unfold Simple.cap; lia|].
  rewrite Hw. change (default leaf (Some w)) with w.
  assert (forall text, Leaf.literal text = js_undefined \/ Leaf.literal text = js_null \/
                       (exists b, Leaf.literal text = js_boolean b) \/
                       (exists s, Leaf.literal text = js_string s)) as Hliteral.
  { intros text. unfold Leaf.literal.
    repeat match goal with |- context [if ?b then _ else _] => destruct b end; eauto 6. }
  assert (Leaf.stored leaf w = w \/ exists text, Leaf.stored leaf w = Leaf.literal text)
    as [Hsame|[text Htext]].
  { unfold Leaf.stored. destruct (js_typeof_string w) as [text'|]; [|now left].
    destruct (js_typeof_string leaf) as [text|]; [|right; now eexists].
    destruct (String.eqb text' text); [now left | right; now eexists]. }
  - rewrite Hsame.
    destruct (MoreEngineFacts.simple_substitute_fuel_text this _ _ _ _ Hw) as [->|Hs];
      [now left | now do 4 right].
  - rewrite Htext. right. apply Hliteral.
Qed.

(** X14. The two classes split a placeholder (a text of one line) with two
    colons differently:
    the richer class takes the text before the first colon as the namespace,
    the earlier class the text before the last one, so a default value that
    holds a colon (a URL) moves the namespace of the earlier class. *)
Theorem colons_split_differently (namespace middle rest : string) :
  Text.occurs ":" namespace = false ->
  Text.occurs ":" rest = false ->
  Text.contains_char Text.is_line_terminator
    (namespace +:+ ":" +:+ middle +:+ ":" +:+ rest) = false ->
  let val := namespace +:+ ":" +:+ middle +:+ ":" +:+ rest in
  Rich.namespace_tuple val = (Some namespace, middle +:+ ":" +:+ rest) /\
  Simple.namespace_tuple val = (Some (namespace +:+ ":" +:+ middle), rest).
Proof.
  intros Hns Hrest _ val. split.
  - exact (CallbackFacts.rich_namespace_tuple namespace _ Hns).
  - unfold val.
    replace (namespace +:+ ":" +:+ middle +:+ ":" +:+ rest)
      with ((namespace +:+ ":" +:+ middle) +:+ String ":" rest)
      by (now rewrite !TextFacts.app_assoc').
    apply CallbackFacts.simple_namespace_tuple; [|exact Hrest].
    destruct namespace; discriminate.
Qed.

(** The placeholder of the test suite's [dynamicHttpDefault]. *)
Lemma colons_split_differently_witness :
  let val := "sm:auth0.audience, https://gozio-dev.auth0.com/api/v2/" in
  Rich.namespace_tuple val
    = (Some "sm", "auth0.audience, https://gozio-dev.auth0.com/api/v2/") /\
  Simple.namespace_tuple val
    = (Some "sm:auth0.audience, https", "//gozio-dev.auth0.com/api/v2/").
Proof.
  apply (colons_split_differently "sm" "auth0.audience, https"
           "//gozio-dev.auth0.com/api/v2/"); reflexivity.
Defined.

(** X15. On a text without [@] the pattern of the richer class finds the
    matches of the pattern of the earlier class, and no other. *)
Theorem same_matches_without_at (text : string) :
  Text.occurs "@" text = false ->
  Rich.substitutionRegex text = Simple.substitutionRegex text.
Proof.
  intros Hat. apply MoreScannerFacts.scan_agree.
  induction text as [|c r IH]; [reflexivity|].
  rewrite MoreTextFacts.occurs_cons in Hat. apply orb_false_iff in Hat as [Hc Hr].
  cbn [Text.contains_char]. rewrite (IH Hr), orb_false_r.
  unfold Rich.is_sigil, Simple.is_sigil. rewrite MoreTextFacts.chr_eqb_sym in Hc.
  rewrite Hc, orb_false_r. apply xorb_nilpotent.
Qed.

Lemma same_matches_without_at_witness :
  Rich.substitutionRegex "tricky-${self:app.gozio-config}-${self:app.name}"
  = Simple.substitutionRegex "tricky-${self:app.gozio-config}-${self:app.name}".
Proof. apply same_matches_without_at. reflexivity. Defined.

(** With an [@] they differ: the earlier pattern sees no sigil in it, and
    matches a placeholder before it. *)
Example matches_with_at :
  Scanner.has_match (Rich.substitutionRegex "${self:a} @home") = false /\
  Scanner.has_match (Simple.substitutionRegex "${self:a} @home") = true.
Proof. vm_compute. split; reflexivity. Qed.

(** X16. The matches of the pattern and the characters between them are the
    text, in order and without overlap: put together again they give the
    text back, in both classes and for every text. *)
Theorem pieces_make_the_text (text : string) :
  Scanner.source (Rich.substitutionRegex text) = text /\
  Scanner.source (Simple.substitutionRegex text) = text.
Proof. split; apply MoreScannerFacts.scan_source. Qed.

(** ** The static methods *)

(** X17. How [parseArgs] reads one argument.  The key is the text before the
    first [=] without the characters that precede its first character from
    [A] to [z]; the value is the text between the first and the second [=],
    what follows a second [=] is dropped, and an argument without [=] has
    the value [true], a text. *)
Theorem parseArgs_argument (pre key value junk : string) :
  Text.contains_char Static.is_A_to_z pre = false ->
  Text.occurs "=" (pre +:+ key) = false ->
  Text.contains_char Text.is_line_terminator key = false ->
  Static.skip_leading key = key ->
  Text.occurs "=" value = false ->
  Static.argument (pre +:+ key) = (key, "true") /\
  Static.argument (pre +:+ key +:+ "=" +:+ value) = (key, value) /\
  Static.argument (pre +:+ key +:+ "=" +:+ value +:+ "=" +:+ junk) = (key, value).
Proof.
  intros Hpre Heq Hline Hkey Hvalue.
  assert (Static.strip_leading (pre +:+ key) = key) as Hstrip.
  { unfold Static.strip_leading.
    rewrite (StaticFacts.skip_leading_app pre key Hpre), Hkey. now rewrite Hline. }
  unfold Static.argument. repeat split.
  - rewrite (TextFacts.split_no_sep "=" _ Heq). cbn [hd tl]. now rewrite Hstrip.
  - replace (pre +:+ key +:+ "=" +:+ value) with ((pre +:+ key) +:+ String "=" value)
      by (now rewrite !TextFacts.app_assoc').
    rewrite (TextFacts.split_app "=" _ _ Heq), (TextFacts.split_no_sep "=" _ Hvalue).
    cbn [hd tl]. now rewrite Hstrip.
  - replace (pre +:+ key +:+ "=" +:+ value +:+ "=" +:+ junk)
      with ((pre +:+ key) +:+ String "=" (value +:+ String "=" junk))
      by (now rewrite !TextFacts.app_assoc').
    rewrite (TextFacts.split_app "=" _ _ Heq), (TextFacts.split_app "=" _ _ Hvalue).
    cbn [hd tl]. now rewrite Hstrip.
Qed.

(** [--config=jest.config.js], [--verbose] and [--2fa=on=off]. *)
Lemma parseArgs_argument_witness :
  Static.argument "--config=jest.config.js" = ("config", "jest.config.js") /\
  Static.argument "--verbose" = ("verbose", "true") /\
  Static.argument "--2fa=on=off" = ("fa", "on").
Proof.
  split; [|split].
  - apply (parseArgs_argument "--" "config" "jest.config.js" ""); reflexivity.
  - apply (parseArgs_argument "--" "verbose" "" ""); reflexivity.
  - apply (parseArgs_argument "--2" "fa" "on" "off"); reflexivity.
Defined.

(** X18. Every property of the object [parseArgs] builds comes from an
    argument after the first two of [process.argv]: its name is the key of
    the argument with the delimiter (a text without operators of regular
    expressions) replaced by dots, its value the trimmed value of the
    argument, always a string, and with [pick] the key is one of the picked
    names. *)
Theorem parseArgs_entries_sound (argv : list string) (pick : option (list string))
    (delim : option string) (k : string) (v : Tree.value) :
  Static.literal (Static.delim_of delim) = true ->
  Props.prop (Static.parseArgs_entries argv pick delim) k = Some v ->
  exists curr,
    In curr (drop 2 argv) /\
    Static.left_out pick (Static.argument curr).1 = false /\
    k = Static.delim_to_dots (Static.delim_of delim) 0 (Static.argument curr).1 /\
    v = Tree.VString (Text.trim (Static.argument curr).2).
Proof.
  intros _. unfold Static.parseArgs_entries.
  assert (forall args acc,
             (forall v', Props.prop acc k = Some v' ->
                         exists curr,
                           In curr (drop 2 argv) /\
                           Static.left_out pick (Static.argument curr).1 = false /\
                           k = Static.delim_to_dots (Static.delim_of delim) 0
                                 (Static.argument curr).1 /\
                           v' = Tree.VString (Text.trim (Static.argument curr).2)) ->
             (forall curr, In curr args -> In curr (drop 2 argv)) ->
             Props.prop
               (fold_left
                  (fun prev curr =>
                     let '(key, value) := Static.argument curr in
                     if Static.left_out pick key then prev
                     else Props.assign prev
                            (Static.delim_to_dots (Static.delim_of delim) 0 key)
                            (Tree.VString (Text.trim value)))
                  args acc) k = Some v ->
             exists curr,
               In curr (drop 2 argv) /\
               Static.left_out pick (Static.argument curr).1 = false /\
               k = Static.delim_to_dots (Static.delim_of delim) 0 (Static.argument curr).1 /\
               v = Tree.VString (Text.trim (Static.argument curr).2)) as Hfold.
  { induction args as [|curr rest IH]; intros acc Hacc Hsub; [apply Hacc|].
    cbn [fold_left]. apply IH; [|intros x Hx; apply Hsub; now right].
    destruct (Static.argument curr) as [key value] eqn:Harg.
    destruct (Static.left_out pick key) eqn:Hout; [exact Hacc|].
    intros v'.
    destruct (String.eqb (Static.delim_to_dots (Static.delim_of delim) 0 key) k) eqn:Hk.
    - apply String.eqb_eq in Hk. subst k. rewrite PropsFacts.prop_assign_eq.
      intros [= <-]. exists curr. rewrite Harg. cbn [fst snd].
      repeat split; [apply Hsub; now left | exact Hout].
    - apply String.eqb_neq in Hk. rewrite (PropsFacts.prop_assign_ne _ _ _ _ Hk).
      apply Hacc. }
  apply Hfold; [discriminate | tauto].
Qed.

(** The property [config] of [parseArgs({ pick: ['config'] })]. *)
Lemma parseArgs_entries_sound_witness :
  exists curr,
    In curr (drop 2 Samples.argv) /\
    Static.left_out (Some ["config"]) (Static.argument curr).1 = false /\
    "config" = Static.delim_to_dots "__" 0 (Static.argument curr).1 /\
    Tree.VString "jest.config.js" = Tree.VString (Text.trim (Static.argument curr).2).
Proof.
  apply (parseArgs_entries_sound Samples.argv (Some ["config"]) None "config"
           (Tree.VString "jest.config.js")); vm_compute; reflexivity.
Defined.

(** X19. A later argument wins.  One more argument at the end of
    [process.argv] (which has its first two entries; the delimiter as in
    X18) changes nothing when [pick] leaves its key out; otherwise the
    object has its value under its name, and every other property is as
    without it. *)
Theorem parseArgs_last_wins (argv : list string) (curr : string)
    (pick : option (list string)) (delim : option string) :
  (2 <= length argv)%nat ->
  Static.literal (Static.delim_of delim) = true ->
  let before := Static.parseArgs_entries argv pick delim in
  let after := Static.parseArgs_entries (argv ++ [curr])%list pick delim in
  let k := Static.delim_to_dots (Static.delim_of delim) 0 (Static.argument curr).1 in
  if Static.left_out pick (Static.argument curr).1 then after = before
  else Props.prop after k = Some (Tree.VString (Text.trim (Static.argument curr).2)) /\
       forall k', k' <> k -> Props.prop after k' = Props.prop before k'.
Proof.
  intros Hlen _ before after k. unfold after, before, Static.parseArgs_entries.
  rewrite (StaticFacts.drop_two_app argv curr Hlen), fold_left_app. cbn [fold_left].
  unfold k. destruct (Static.argument curr) as [key value]. cbn [fst snd].
  destruct (Static.left_out pick key); [reflexivity|]. split.
  - apply PropsFacts.prop_assign_eq.
  - intros k' Hk'. apply PropsFacts.prop_assign_ne. congruence.
Qed.

(** [--config=other.js] after the arguments of the suite. *)
Lemma parseArgs_last_wins_witness :
  Props.prop (Static.parseArgs_entries (Samples.argv ++ ["--config=other.js"])%list None None)
    "config"
  = Some (Tree.VString "other.js").
Proof.
  assert (2 <= length Samples.argv)%nat as Hlen by (vm_compute; lia).
  pose proof (parseArgs_last_wins Samples.argv "--config=other.js" None None Hlen eq_refl)
    as Hlast.
  cbv zeta in Hlast.
  assert (Static.left_out None (Static.argument "--config=other.js").1 = false) as Hin
      by reflexivity.
  rewrite Hin in Hlast. exact (proj1 Hlast).
Defined.

(** X20. Every property of the object [parseEnv] builds comes from a picked
    name, or from a variable of the environment when nothing is picked: its
    name is that name with the delimiter (as in X18) replaced by dots, and
    its value the text of the variable, or [undefined] when the environment
    has no such variable. *)
Theorem parseEnv_entries_sound (env : list (string * string)) (pick : option (list string))
    (delim : option string) (k : string) (v : Tree.value) :
  Static.literal (Static.delim_of delim) = true ->
  Props.prop (Static.parseEnv_entries env pick delim) k = Some v ->
  exists name,
    In name (default (map fst env) pick) /\
    k = Static.delim_to_dots (Static.delim_of delim) 0 name /\
    v = match Props.prop env name with
        | Some text => Tree.VString text
        | None => Tree.VUndefined
        end.
Proof.
  intros _. unfold Static.parseEnv_entries.
  generalize (default (map fst env) pick) as keys. intros keys.
  assert (forall names acc,
             (forall v', Props.prop acc k = Some v' ->
                         exists name,
                           In name keys /\
                           k = Static.delim_to_dots (Static.delim_of delim) 0 name /\
                           v' = match Props.prop env name with
                                | Some text => Tree.VString text
                                | None => Tree.VUndefined
                                end) ->
             (forall name, In name names -> In name keys) ->
             Props.prop
               (fold_left
                  (fun prev key =>
                     Props.assign prev (Static.delim_to_dots (Static.delim_of delim) 0 key)
                       match Props.prop env key with
                       | Some text => Tree.VString text
                       | None => Tree.VUndefined
                       end)
                  names acc) k = Some v ->
             exists name,
               In name keys /\
               k = Static.delim_to_dots (Static.delim_of delim) 0 name /\
               v = match Props.prop env name with
                   | Some text => Tree.VString text
                   | None => Tree.VUndefined
                   end) as Hfold.
  { induction names as [|name rest IH]; intros acc Hacc Hsub; [apply Hacc|].
    cbn [fold_left]. apply IH; [|intros x Hx; apply Hsub; now right].
    intros v'.
    destruct (String.eqb (Static.delim_to_dots (Static.delim_of delim) 0 name) k) eqn:Hk.
    - apply String.eqb_eq in Hk. subst k. rewrite PropsFacts.prop_assign_eq.
      intros [= <-]. exists name. repeat split. apply Hsub. now left.
    - apply String.eqb_neq in Hk. rewrite (PropsFacts.prop_assign_ne _ _ _ _ Hk).
      apply Hacc. }
  apply Hfold; [discriminate | tauto].
Qed.

(** The property [test.me.nested] of
    [parseEnv({ pick: ['testMe', 'test__me__nested'] })]. *)
Lemma parseEnv_entries_sound_witness :
  exists name,
    In name ["testMe"; "test__me__nested"] /\
    "test.me.nested" = Static.delim_to_dots "__" 0 name /\
    Tree.VString "testMeNested"
    = match Props.prop Samples.env name with
      | Some text => Tree.VString text
      | None => Tree.VUndefined
      end.
Proof.
  apply (parseEnv_entries_sound Samples.env (Some ["testMe"; "test__me__nested"]) None
           "test.me.nested" (Tree.VString "testMeNested")); vm_compute; reflexivity.
Defined.



(** X22. The delimiter becomes the dot.  For a delimiter that is not empty
    and holds no operator of regular expressions, and parts of a name that
    do not hold its first character, the name made of the parts with the
    delimiter between them becomes the parts with dots between them; a name
    without that character stays as it is. *)
Theorem delimiter_becomes_dots (a : ascii) (d' : string) (parts : list string) :
  Static.literal (String a d') = true ->
  Forall (fun part => Text.occurs a part = false) parts ->
  Static.delim_to_dots (String a d') 0 (Text.join (String a d') parts)
  = Text.join "." parts.
Proof. intros _. apply StaticFacts.delim_to_dots_join. Qed.

(** The variable [test__me__nested] of the test suite. *)
Lemma delimiter_becomes_dots_witness :
  Static.delim_to_dots "__" 0 "test__me__nested" = "test.me.nested".
Proof.
  apply (delimiter_becomes_dots "_" "_" ["test"; "me"; "nested"]);
    [reflexivity | repeat constructor].
Defined.

(** The empty delimiter matches before every character and at the end. *)
Example empty_delimiter : Static.delim_to_dots "" 0 "ab" = ".a.b.".
Proof. reflexivity. Qed.

(** X23. [parseFile] goes by the text after the last dot of the path, in
    lower case: a path without a dot is judged by its whole text, and every
    path whose extension is none of [js], [yml], [yaml] and [json] throws
    the error that names the path. *)
Theorem parseFile_by_extension {A : Type} (fs : Static.Loaders A) (stem ext : string) :
  Text.occurs "." ext = false ->
  Static.extension (stem +:+ "." +:+ ext) = Static.toLowerCase ext /\
  Static.extension ext = Static.toLowerCase ext /\
  (~ In (Static.toLowerCase ext) ["js"; "yml"; "yaml"; "json"] ->
   Static.parseFile fs (stem +:+ "." +:+ ext)
   = inr (Static.unsupported (stem +:+ "." +:+ ext))).
Proof.
  intros Hext.
  assert (Static.extension (stem +:+ "." +:+ ext) = Static.toLowerCase ext) as Hstem.
  { unfold Static.extension.
    change (stem +:+ "." +:+ ext) with (stem +:+ String "." ext).
    rewrite MoreTextFacts.last_split_app. now rewrite (TextFacts.split_no_sep "." ext Hext). }
  split; [exact Hstem|]. split.
  - unfold Static.extension. now rewrite (TextFacts.split_no_sep "." ext Hext).
  - intros Hnot. unfold Static.parseFile. rewrite Hstem.
    destruct (String.eqb (Static.toLowerCase ext) "js") eqn:H1;
      [apply String.eqb_eq in H1; exfalso; apply Hnot; rewrite H1; now left|].
    destruct (String.eqb (Static.toLowerCase ext) "yml") eqn:H2;
      [apply String.eqb_eq in H2; exfalso; apply Hnot; rewrite H2; right; now left|].
    destruct (String.eqb (Static.toLowerCase ext) "yaml") eqn:H3;
      [apply String.eqb_eq in H3; exfalso; apply Hnot; rewrite H3; do 2 right; now left|].
    destruct (String.eqb (Static.toLowerCase ext) "json") eqn:H4;
      [apply String.eqb_eq in H4; exfalso; apply Hnot; rewrite H4; do 3 right; now left|].
    reflexivity.
Qed.

(** [config/config.YML] has the extension [yml]; [config.json.bak] throws. *)
Lemma parseFile_by_extension_witness :
  Static.extension "config/config.YML" = "yml" /\
  forall (fs : Static.Loaders Tree.value),
    Static.parseFile fs "config.json.bak"
    = inr "Unsupported file type config.json.bak".
Proof.
  split.
  - apply (parseFile_by_extension
             {| Static.require := fun _ => Tree.VUndefined;
                Static.yaml_load := fun _ => Tree.VUndefined;
                Static.json_parse := fun _ => Tree.VUndefined;
                Static.readFileSync := fun path => path |}
             "config/config" "YML").
    reflexivity.
  - intros fs.
    destruct (parseFile_by_extension fs "config.json" "bak") as (_ & _ & Hthrows);
      [reflexivity|].
    apply Hthrows. vm_compute. intros [H|[H|[H|[H|[]]]]]; discriminate.
Defined.

(** What the test suite reads from the command line and the environment. *)
Example parse_of_the_suite :
  Static.parseArgs Samples.argv (Some ["config"]) None
    = Tree.object [("config", Tree.VString "jest.config.js")] /\
  Static.parseEnv Samples.env (Some ["testMe"; "test__me__nested"]) None
    = Tree.object
        [("testMe", Tree.VString "testMe");
         ("test", Tree.object
                    [("me", Tree.object [("nested", Tree.VString "testMeNested")])])].
Proof. vm_compute. split; reflexivity. Qed.
